(** * Library management backend: borrow/return lifecycle

    A shallow embedding of [src/db.js], [src/routes/books.js],
    [src/routes/borrow.js] and the two scheduled jobs of
    [src/emailService.js], followed by the properties of the
    availability flag, the loan ledger and the notification queries.

    Conventions of the embedding.
    - The SQLite connection is a record holding the two tables as lists of
      rows in rowid order, the two AUTOINCREMENT counters of
      [sqlite_sequence], and the [foreign_keys] pragma of the connection.
    - A JavaScript [Date] is the integer number of milliseconds since the
      epoch.  A [DATE] column written with [toISOString()] is represented by
      the instant its text denotes.
    - Every [new Date()] is an explicit argument: the clock may tick between
      two readings.
    - The SMTP transport is an oracle telling which messages it accepts.
    - The functions of [db.js] and the routes are given twice: first on
      arguments of the types their documentation gives (text fields, integer
      ids, a server whose UTC offset does not change), then on the values a
      JSON body can really hold and for any time zone.  The second form
      agrees with the first on text fields. *)

From Stdlib Require Import ZArith List String Ascii Bool Lia.
Import ListNotations.
Open Scope string_scope.
Open Scope list_scope.
Open Scope Z_scope.

(** ** Rows *)

Module Book.
(** A row of [books (id, title, author, isbn UNIQUE, available)]. *)
Record t : Type := mk
  { id : Z; title : string; author : string; isbn : string;
    available : bool }.
End Book.

Module Borrow.
(** A row of [borrows (id, book_id, user_email, borrow_date, return_date,
    returned)]. *)
Record t : Type := mk
  { id : Z; book_id : Z; user_email : string;
    borrow_date : Z; return_date : Z; returned : bool }.
End Borrow.

(** The connection [db]: tables, [sqlite_sequence] and pragma. *)
Record db : Type := mkDb
  { foreign_keys : bool;
    books : list Book.t;
    borrows : list Borrow.t;
    seq_books : Z;
    seq_borrows : Z }.

(** What [stmt.run] returns for an [INSERT].  Of the result of an [UPDATE]
    or a [DELETE] the program reads [changes] only, and the embedding of
    those statements returns that number. *)
Record RunResult : Type := mkRun { changes : Z; lastInsertRowid : Z }.

(** ** Exceptions and the state monad of a handler *)

(** The errors this program can see.  [error.message === 'Book is not
    available'] in the route is the test for [BookNotAvailable]: no SQLite
    or transport error carries that message. *)
Inductive error : Type :=
| BookNotFound
| BookNotAvailable
| BorrowNotFound
| SqliteError (msg : string)
| MailError (msg : string).

Definition message (e : error) : string :=
  match e with
  | BookNotFound => "Book not found"
  | BookNotAvailable => "Book is not available"
  | BorrowNotFound => "Borrow record not found"
  | SqliteError msg => msg
  | MailError msg => msg
  end.

Inductive result (A : Type) : Type :=
| Ok (a : A)
| Throw (e : error).
Arguments Ok {A} a.
Arguments Throw {A} e.

(** A computation reads and writes the database and may throw; what was
    written before a throw stays written (no statement of the program runs
    inside a transaction). *)
Definition M (A : Type) : Type := db -> result A * db.

Definition ret {A} (a : A) : M A := fun s => (Ok a, s).
Definition throw {A} (e : error) : M A := fun s => (Throw e, s).
Definition bind {A B} (m : M A) (k : A -> M B) : M B :=
  fun s => match m s with
           | (Ok a, s') => k a s'
           | (Throw e, s') => (Throw e, s')
           end.
Definition query {A} (q : db -> A) : M A := fun s => (Ok (q s), s).

Notation "x <- m ;; k" := (bind m (fun x => k))
  (at level 61, m at next level, right associativity).
Notation "m ;;; k" := (bind m (fun _ => k))
  (at level 61, right associativity).

(** ** Time *)

Definition ms_per_day : Z := 1000 * 60 * 60 * 24.

(** [d.setDate(d.getDate() + n)], for a server whose zone has a constant
    offset from UTC. *)
Definition setDate_plus (d n : Z) : Z := d + n * ms_per_day.

(** The UTC calendar day of an instant, as a day number: what the first ten
    characters of [toISOString()] and what [date('now')] spell. *)
Definition utc_day (t : Z) : Z := t / ms_per_day.

(** [b.return_date >= date('now')] and [b.return_date < date('now')].  Both
    sides are text and, for the years written with four digits, the ISO
    timestamp and the ten-character date are ordered by their calendar day;
    on the same day the longer timestamp is the greater of the two. *)
Definition sql_ge_date_now (now return_date : Z) : bool :=
  utc_day now <=? utc_day return_date.
Definition sql_lt_date_now (now return_date : Z) : bool :=
  utc_day return_date <? utc_day now.

(** [Math.ceil(a / b)] for [b > 0].  The quotient of two integers below
    2^53 by 86400000 is rounded by less than the distance that separates a
    non-integer quotient from the next integer, so the float computation
    agrees with the exact one. *)
Definition ceil_div (a b : Z) : Z := - ((- a) / b).

(** ** Statements of [db.js] *)

Definition truthy (s : option string) : bool :=
  match s with
  | Some v => negb (v =? "")%string
  | None => false
  end.

Definition value (s : option string) : string :=
  match s with Some v => v | None => "" end.

(** [CREATE TABLE IF NOT EXISTS] on a fresh file.  [fk] is the
    [foreign_keys] pragma of the connection: the driver of [db.js] turns it
    on when it opens a database and the program never sets it, so the
    database of the program is [initDB true]. *)
Definition initDB (fk : bool) : db :=
  {| foreign_keys := fk; books := []; borrows := [];
     seq_books := 0; seq_borrows := 0 |}.

Definition has_id (i : Z) (b : Book.t) : bool := Book.id b =? i.
Definition borrow_has_id (i : Z) (b : Borrow.t) : bool := Borrow.id b =? i.

(** [SELECT * FROM books WHERE id = ?] *)
Definition getBookById (i : Z) : M (option Book.t) :=
  query (fun s => find (has_id i) (books s)).

(** [SELECT * FROM books] *)
Definition getAllBooks : M (list Book.t) := query books.

(** [INSERT INTO books (title, author, isbn) VALUES (?, ?, ?)] *)
Definition addBook (title author isbn : string) : M RunResult :=
  fun s =>
    if existsb (fun b => (Book.isbn b =? isbn)%string) (books s)
    then (Throw (SqliteError "UNIQUE constraint failed: books.isbn"), s)
    else
      let i := seq_books s + 1 in
      (Ok (mkRun 1 i),
       {| foreign_keys := foreign_keys s;
          books := books s ++ [Book.mk i title author isbn true];
          borrows := borrows s;
          seq_books := i;
          seq_borrows := seq_borrows s |}).

(** The columns [updateBook] may assign. *)
Inductive column : Type := Title | Author | Isbn.

Definition assign (b : Book.t) (u : column * string) : Book.t :=
  match u with
  | (Title, v) => Book.mk (Book.id b) v (Book.author b) (Book.isbn b) (Book.available b)
  | (Author, v) => Book.mk (Book.id b) (Book.title b) v (Book.isbn b) (Book.available b)
  | (Isbn, v) => Book.mk (Book.id b) (Book.title b) (Book.author b) v (Book.available b)
  end.

Definition set_books (s : db) (l : list Book.t) : db :=
  {| foreign_keys := foreign_keys s; books := l; borrows := borrows s;
     seq_books := seq_books s; seq_borrows := seq_borrows s |}.

Definition set_borrows (s : db) (l : list Borrow.t) : db :=
  {| foreign_keys := foreign_keys s; books := books s; borrows := l;
     seq_books := seq_books s; seq_borrows := seq_borrows s |}.

(** [UPDATE ... SET ... WHERE p]: every row that satisfies [p] is rewritten. *)
Definition update_where {A : Type} (p : A -> bool) (f : A -> A) (l : list A) : list A :=
  map (fun x => if p x then f x else x) l.

Definition with_available (v : bool) (b : Book.t) : Book.t :=
  Book.mk (Book.id b) (Book.title b) (Book.author b) (Book.isbn b) v.

Definition with_returned (v : bool) (l : Borrow.t) : Borrow.t :=
  Borrow.mk (Borrow.id l) (Borrow.book_id l) (Borrow.user_email l)
            (Borrow.borrow_date l) (Borrow.return_date l) v.

(** Rows an [UPDATE ... WHERE id = ?] matches. *)
Definition count_books (i : Z) (s : db) : Z :=
  Z.of_nat (List.length (filter (has_id i) (books s))).
Definition count_borrows (i : Z) (s : db) : Z :=
  Z.of_nat (List.length (filter (borrow_has_id i) (borrows s))).

(** Would assigning [updates] to row [i] repeat the isbn of another row? *)
Definition isbn_clash (i : Z) (updates : list (column * string)) (s : db) : bool :=
  existsb (fun u => match u with
                    | (Isbn, v) =>
                        existsb (fun b => negb (has_id i b) && (Book.isbn b =? v)%string) (books s)
                    | _ => false
                    end) updates.

(** [UPDATE books SET <updates> WHERE id = ?] *)
Definition run_update_book (i : Z) (updates : list (column * string)) : M Z :=
  fun s =>
    match updates with
    | [] => (Throw (SqliteError ("near " ++ String "034" ("WHERE" ++ String "034"
                                                 ": syntax error"))), s)
    | _ =>
        if (0 <? count_books i s) && isbn_clash i updates s
        then (Throw (SqliteError "UNIQUE constraint failed: books.isbn"), s)
        else
          (Ok (count_books i s),
           set_books s (update_where (has_id i) (fun b => fold_left assign updates b)
                                     (books s)))
    end.

(** The [updates] and [values] arrays [updateBook] fills, paired. *)
Definition collect_updates (title author isbn : option string) : list (column * string) :=
  (if truthy title then [(Title, value title)] else []) ++
  (if truthy author then [(Author, value author)] else []) ++
  (if truthy isbn then [(Isbn, value isbn)] else []).

(** [updateBook(id, { title, author, isbn })] *)
Definition updateBook (i : Z) (title author isbn : option string) : M (option Book.t) :=
  book <- getBookById i ;;
  match book with
  | None => ret None
  | Some _ =>
      let updates := collect_updates title author isbn in
      n <- run_update_book i updates ;;
      if 0 <? n then getBookById i else ret None
  end.

(** Would deleting row [i] of [books] leave a row of [borrows] without its
    parent?  Only asked when the pragma is on. *)
Definition fk_violation (i : Z) (s : db) : bool :=
  foreign_keys s && (0 <? count_books i s)
  && existsb (fun l => Borrow.book_id l =? i) (borrows s).

(** [DELETE FROM books WHERE id = ?] *)
Definition run_delete_book (i : Z) : M Z :=
  fun s =>
    if fk_violation i s
    then (Throw (SqliteError "FOREIGN KEY constraint failed"), s)
    else (Ok (count_books i s),
          set_books s (filter (fun b => negb (has_id i b)) (books s))).

(** [deleteBook(id)] *)
Definition deleteBook (i : Z) : M bool :=
  n <- run_delete_book i ;;
  ret (0 <? n).

(** [UPDATE books SET available = ? WHERE id = ?] *)
Definition set_available (v : bool) (i : Z) : M Z :=
  fun s =>
    (Ok (count_books i s),
     set_books s (update_where (has_id i) (with_available v) (books s))).

(** [INSERT INTO borrows (book_id, user_email, borrow_date, return_date)
    VALUES (?, ?, ?, ?)] *)
Definition insert_borrow (bookId : Z) (userEmail : string)
    (borrowDate returnDate : Z) : M RunResult :=
  fun s =>
    if foreign_keys s && negb (0 <? count_books bookId s)
    then (Throw (SqliteError "FOREIGN KEY constraint failed"), s)
    else
      let i := seq_borrows s + 1 in
      (Ok (mkRun 1 i),
       {| foreign_keys := foreign_keys s;
          books := books s;
          borrows := borrows s
                     ++ [Borrow.mk i bookId userEmail borrowDate returnDate false];
          seq_books := seq_books s;
          seq_borrows := i |}).

(** [addBorrow(bookId, userEmail)]; [now1] and [now2] are the values of its
    two [new Date()]. *)
Definition addBorrow (now1 now2 : Z) (bookId : Z) (userEmail : string) : M RunResult :=
  book <- getBookById bookId ;;
  match book with
  | None => throw BookNotFound
  | Some book =>
      if negb (Book.available book) then throw BookNotAvailable
      else
        let borrowDate := now1 in
        let returnDate := setDate_plus now2 14 in
        set_available false bookId ;;;
        insert_borrow bookId userEmail borrowDate returnDate
  end.

(** A row of the two notification queries:
    [SELECT b.*, books.title, books.author]. *)
Record PendingRow : Type := mkRow
  { borrow : Borrow.t; title : string; author : string }.

(** [FROM borrows b JOIN books ON b.book_id = books.id WHERE <cond>] *)
Definition join_books (cond : Borrow.t -> bool) (s : db) : list PendingRow :=
  flat_map (fun b =>
              map (fun bk => mkRow b (Book.title bk) (Book.author bk))
                  (filter (has_id (Borrow.book_id b)) (books s)))
           (filter cond (borrows s)).

(** [getPendingReturns()], run when SQLite's clock reads [now]. *)
Definition getPendingReturns (now : Z) (s : db) : list PendingRow :=
  join_books (fun b => negb (Borrow.returned b)
                       && sql_ge_date_now now (Borrow.return_date b)) s.

(** [getOverdueBooks()], run when SQLite's clock reads [now]. *)
Definition getOverdueBooks (now : Z) (s : db) : list PendingRow :=
  join_books (fun b => negb (Borrow.returned b)
                       && sql_lt_date_now now (Borrow.return_date b)) s.

(** [UPDATE borrows SET returned = TRUE WHERE id = ?] *)
Definition set_returned (i : Z) : M Z :=
  fun s =>
    (Ok (count_borrows i s),
     set_borrows s (update_where (borrow_has_id i) (with_returned true) (borrows s))).

(** [markAsReturned(borrowId)] *)
Definition markAsReturned (borrowId : Z) : M bool :=
  borrow <- query (fun s => find (borrow_has_id borrowId) (borrows s)) ;;
  match borrow with
  | None => throw BorrowNotFound
  | Some borrow =>
      set_available true (Borrow.book_id borrow) ;;;
      n <- set_returned borrowId ;;
      ret (0 <? n)
  end.

(** ** The mail service *)

Inductive mail_kind : Type := BorrowNotice | ReminderNotice | OverdueNotice.

(** A message handed to [transporter.sendMail], by the template that renders
    it and the three arguments of the [send...Email] function. *)
Record mail : Type := mkMail
  { kind : mail_kind; userEmail : string; bookTitle : string; returnDate : Z }.

(** The transport: [None] when it accepts the message, [Some msg] when the
    promise of [sendMail] rejects with that message. *)
Definition transport : Type := mail -> option string.

Definition sendMail (smtp : transport) (m : mail) : M unit :=
  match smtp m with
  | None => ret tt
  | Some msg => throw (MailError msg)
  end.

Definition sendBorrowEmail (smtp : transport) (to bookTitle : string) (returnDate : Z) : M unit :=
  sendMail smtp (mkMail BorrowNotice to bookTitle returnDate).

Definition reminder_of (row : PendingRow) : mail :=
  mkMail ReminderNotice (Borrow.user_email (borrow row)) (title row)
         (Borrow.return_date (borrow row)).

Definition overdue_of (row : PendingRow) : mail :=
  mkMail OverdueNotice (Borrow.user_email (borrow row)) (title row)
         (Borrow.return_date (borrow row)).

(** What a scheduled job did: the messages it handed to the transport, in
    order, and the error its [catch] logged, if any. *)
Record job_log : Type := mkLog { handed : list mail; logged : option error }.

Definition daysUntilDue (today returnDate : Z) : Z :=
  ceil_div (returnDate - today) ms_per_day.

(** [daysUntilDue <= 2 && daysUntilDue > 0] *)
Definition due_soon (today : Z) (row : PendingRow) : bool :=
  let d := daysUntilDue today (Borrow.return_date (borrow row)) in
  (d <=? 2) && (0 <? d).

(** The [for] loop of the 9 AM job; the [try] encloses the whole loop, so a
    rejected send ends it. *)
Fixpoint reminder_loop (smtp : transport) (today : Z) (pendingReturns : list PendingRow)
  : job_log :=
  match pendingReturns with
  | [] => mkLog [] None
  | row :: rest =>
      if due_soon today row then
        match smtp (reminder_of row) with
        | Some msg => mkLog [reminder_of row] (Some (MailError msg))
        | None =>
            let r := reminder_loop smtp today rest in
            mkLog (reminder_of row :: handed r) (logged r)
        end
      else reminder_loop smtp today rest
  end.

(** The 9 AM job: [now] is the clock of SQLite's [date('now')], [today] the
    [new Date()] that follows. *)
Definition reminder_job (smtp : transport) (now today : Z) (s : db) : job_log :=
  reminder_loop smtp today (getPendingReturns now s).

(** The [for] loop of the 10 AM job. *)
Fixpoint overdue_loop (smtp : transport) (overdueBooks : list PendingRow) : job_log :=
  match overdueBooks with
  | [] => mkLog [] None
  | row :: rest =>
      match smtp (overdue_of row) with
      | Some msg => mkLog [overdue_of row] (Some (MailError msg))
      | None =>
          let r := overdue_loop smtp rest in
          mkLog (overdue_of row :: handed r) (logged r)
      end
  end.

Definition overdue_job (smtp : transport) (now : Z) (s : db) : job_log :=
  overdue_loop smtp (getOverdueBooks now s).

(** ** Regular expression of the borrow route *)

(** The fragment of regular expressions the route uses: a character, or one
    or more characters of a class; the expression is anchored at both ends. *)
Inductive atom : Type :=
| Lit (c : ascii)
| Plus (cls : ascii -> bool).

Fixpoint match_re (re : list atom) : string -> bool :=
  match re with
  | [] => fun s => match s with EmptyString => true | _ => false end
  | Lit a :: re' =>
      fun s => match s with
               | String c s' => (c =? a)%char && match_re re' s'
               | EmptyString => false
               end
  | Plus cls :: re' =>
      fix loop (s : string) : bool :=
        match s with
        | String c s' => cls c && (loop s' || match_re re' s')
        | EmptyString => false
        end
  end.

(** [\s], on code units below 256: TAB, LF, VT, FF, CR, space and the
    no-break space. *)
Definition is_space (c : ascii) : bool :=
  let n := Z.of_nat (nat_of_ascii c) in
  ((9 <=? n) && (n <=? 13)) || (n =? 32) || (n =? 160).

(** [[^\s@]] *)
Definition not_space_at (c : ascii) : bool :=
  negb (is_space c) && negb (c =? "@")%char.

(** [/^[^\s@]+@[^\s@]+\.[^\s@]+$/.test(userEmail)] *)
Definition email_test (userEmail : string) : bool :=
  match_re [Plus not_space_at; Lit "@"; Plus not_space_at; Lit "."; Plus not_space_at]
           userEmail.

(** ** Routes *)

Inductive json : Type :=
| error_json (error : string)
| message_json (message : string)
| borrowed_json (message : string) (borrow : RunResult) (returnDate : Z)
| updated_json (message : string) (book : Book.t).

Record response : Type := mkResponse { status : Z; body : json }.

(** [try { ... } catch (error) { ... }] around a handler. *)
Definition try_catch (body : M response) (handler : error -> response)
  : db -> response * db :=
  fun s => match body s with
           | (Ok r, s') => (r, s')
           | (Throw e, s') => (handler e, s')
           end.

Definition truthyZ (n : option Z) : bool :=
  match n with
  | Some v => negb (v =? 0)
  | None => false
  end.

Definition valueZ (n : option Z) : Z := match n with Some v => v | None => 0 end.

(** [POST /borrow]; [now1], [now2] are the clock readings of [addBorrow] and
    [now3] the one of the route. *)
Definition post_borrow (smtp : transport) (now1 now2 now3 : Z)
    (bookId : option Z) (userEmail : option string) : db -> response * db :=
  try_catch
    (if negb (truthyZ bookId) || negb (truthy userEmail)
     then ret (mkResponse 400 (error_json "Book ID and user email are required"))
     else if negb (email_test (value userEmail))
     then ret (mkResponse 400 (error_json "Invalid email format"))
     else
       book <- getBookById (valueZ bookId) ;;
       match book with
       | None => ret (mkResponse 404 (error_json "Book not found"))
       | Some book =>
           borrow <- addBorrow now1 now2 (valueZ bookId) (value userEmail) ;;
           let returnDate := setDate_plus now3 14 in
           sendBorrowEmail smtp (value userEmail) (Book.title book) returnDate ;;;
           ret (mkResponse 200
                  (borrowed_json "Book borrowed successfully" borrow returnDate))
       end)
    (fun error =>
       match error with
       | BookNotAvailable => mkResponse 400 (error_json (message error))
       | _ => mkResponse 500 (error_json (message error))
       end).

(** [POST /return/:borrowId] *)
Definition post_return (borrowId : Z) : db -> response * db :=
  try_catch
    (result <- markAsReturned borrowId ;;
     if negb result
     then ret (mkResponse 404 (error_json "Borrow record not found"))
     else ret (mkResponse 200 (message_json "Book returned successfully")))
    (fun error =>
       match error with
       | BorrowNotFound => mkResponse 404 (error_json (message error))
       | _ => mkResponse 500 (error_json (message error))
       end).

(** [PUT /books/:id] *)
Definition put_book (bookId : Z) (title author isbn : option string)
  : db -> response * db :=
  try_catch
    (if negb (truthy title) && negb (truthy author) && negb (truthy isbn)
     then ret (mkResponse 400 (error_json "At least one field to update is required"))
     else
       book <- updateBook bookId title author isbn ;;
       match book with
       | None => ret (mkResponse 404 (error_json "Book not found"))
       | Some book => ret (mkResponse 200 (updated_json "Book updated successfully" book))
       end)
    (fun error => mkResponse 500 (error_json (message error))).

(** ** Sequences of operations of [db.js] *)

Inductive op : Type :=
| AddBook (title author isbn : string)
| UpdateBook (id : Z) (title author isbn : option string)
| DeleteBook (id : Z)
| AddBorrow (now1 now2 : Z) (bookId : Z) (userEmail : string)
| MarkAsReturned (borrowId : Z).

(** The database after a call, whether it returns or throws. *)
Definition step (o : op) (s : db) : db :=
  match o with
  | AddBook t a i => snd (addBook t a i s)
  | UpdateBook i t a n => snd (updateBook i t a n s)
  | DeleteBook i => snd (deleteBook i s)
  | AddBorrow n1 n2 b e => snd (addBorrow n1 n2 b e s)
  | MarkAsReturned i => snd (markAsReturned i s)
  end.

Definition run (ops : list op) (s : db) : db := fold_left (fun s o => step o s) ops s.

(** States the program can be in: those a sequence of calls reaches from the
    freshly initialised database. *)
Definition reachable (s : db) : Prop :=
  exists fk ops, s = run ops (initDB fk).

(** ** Routes of [books.js] *)

(** The pattern of the book route: a character, or between [lo] and [hi]
    characters of a class; the expression is anchored at both ends. *)
Inductive ratom : Type :=
| RLit (c : ascii)
| RRep (cls : ascii -> bool) (lo hi : nat).

Fixpoint match_bounded (re : list ratom) : string -> bool :=
  match re with
  | [] => fun s => match s with EmptyString => true | _ => false end
  | RLit a :: re' =>
      fun s => match s with
               | String c s' => (c =? a)%char && match_bounded re' s'
               | EmptyString => false
               end
  | RRep cls lo hi :: re' =>
      (fix rep (lo hi : nat) (s : string) {struct hi} : bool :=
         (match lo with O => match_bounded re' s | S _ => false end)
         || match hi, s with
            | S hi', String c s' => cls c && rep (Nat.pred lo) hi' s'
            | _, _ => false
            end) lo hi
  end.

(** [\d] *)
Definition is_digit (c : ascii) : bool :=
  let n := Z.of_nat (nat_of_ascii c) in (48 <=? n) && (n <=? 57).

(** [/^\d{3}-\d{1,5}-\d{1,7}-\d{1,7}-\d{1,7}$/.test(isbn)] *)
Definition isbn_test (isbn : string) : bool :=
  match_bounded [RRep is_digit 3 3; RLit "-"; RRep is_digit 1 5; RLit "-";
                 RRep is_digit 1 7; RLit "-"; RRep is_digit 1 7; RLit "-";
                 RRep is_digit 1 7] isbn.

(** [hay.includes(needle)] *)
Fixpoint includes (needle hay : string) : bool :=
  String.prefix needle hay
  || match hay with
     | EmptyString => false
     | String _ rest => includes needle rest
     end.

(** The bodies the book routes answer with. *)
Inductive book_json : Type :=
| book_error_json (error : string)
| book_message_json (message : string)
| added_json (message : string) (book : RunResult)
| one_book_json (book : Book.t)
| all_books_json (books : list Book.t).

Record book_response : Type := mkBookResponse { book_status : Z; book_body : book_json }.

Definition try_catch_book (body : M book_response) (handler : error -> book_response)
  : db -> book_response * db :=
  fun s => match body s with
           | (Ok r, s') => (r, s')
           | (Throw e, s') => (handler e, s')
           end.

(** [POST /books] *)
Definition post_book (title author isbn : option string) : db -> book_response * db :=
  try_catch_book
    (if negb (truthy title) || negb (truthy author) || negb (truthy isbn)
     then ret (mkBookResponse 400 (book_error_json "Title, author, and ISBN are required"))
     else if negb (isbn_test (value isbn))
     then ret (mkBookResponse 400 (book_error_json "Invalid ISBN format"))
     else
       book <- addBook (value title) (value author) (value isbn) ;;
       ret (mkBookResponse 201 (added_json "Book added successfully" book)))
    (fun error =>
       if includes "UNIQUE constraint failed" (message error)
       then mkBookResponse 409 (book_error_json "Book with this ISBN already exists")
       else mkBookResponse 500 (book_error_json (message error))).

(** [GET /books] *)
Definition get_books : db -> book_response * db :=
  try_catch_book
    (books <- getAllBooks ;;
     ret (mkBookResponse 200 (all_books_json books)))
    (fun error => mkBookResponse 500 (book_error_json (message error))).

(** [GET /books/:id] *)
Definition get_book (bookId : Z) : db -> book_response * db :=
  try_catch_book
    (book <- getBookById bookId ;;
     match book with
     | None => ret (mkBookResponse 404 (book_error_json "Book not found"))
     | Some book => ret (mkBookResponse 200 (one_book_json book))
     end)
    (fun error => mkBookResponse 500 (book_error_json (message error))).

(** [DELETE /books/:id] *)
Definition delete_book (bookId : Z) : db -> book_response * db :=
  try_catch_book
    (result <- deleteBook bookId ;;
     if negb result
     then ret (mkBookResponse 404 (book_error_json "Book not found"))
     else ret (mkBookResponse 200 (book_message_json "Book deleted successfully")))
    (fun error => mkBookResponse 500 (book_error_json (message error))).

(** ** Time zones *)

(** The zone of the server: the offset of local time from UTC at a UTC
    instant and at a local wall-clock time (the two [LocalTZA] of the
    language). *)
Record zone : Type := mkZone { offset_utc : Z -> Z; offset_local : Z -> Z }.

(** A zone whose offset never changes. *)
Definition fixed_zone (c : Z) : zone := mkZone (fun _ => c) (fun _ => c).

(** [d.setDate(d.getDate() + n)] in the zone of the server: the same local
    wall-clock time [n] calendar days later, read back as an instant (for
    instants within the range of [Date]). *)
Definition setDate_zone (z : zone) (d n : Z) : Z :=
  let local := d + offset_utc z d in
  let moved := local + n * ms_per_day in
  moved - offset_local z moved.

(** ** Values of a request *)

(** A field of a JSON body, by what the handlers observe of it: whether it
    is truthy, the string that [RegExp.prototype.test] coerces it to, and the
    text a TEXT column stores when it is bound to a statement, [None] when
    the driver refuses to bind it (a boolean, an array, an object). *)
Record js_field : Type := mkField
  { is_truthy : bool; as_string : string; as_text : option string }.

(** A field that holds a string. *)
Definition text_field (v : string) : js_field :=
  mkField (negb (v =? "")%string) v (Some v).

(** What [WHERE id = ?] does with a value: the driver refuses it, or it
    equals no integer, or it equals the integer [i]. *)
Inductive js_key : Type :=
| CannotBind
| NoRow
| Row (i : Z).

(** The [bookId] of a JSON body. *)
Record js_id : Type := mkId { id_truthy : bool; id_key : js_key }.

(** A [bookId] that holds the number [i]. *)
Definition number_id (i : Z) : js_id := mkId (negb (i =? 0)) (Row i).

(** The [TypeError] of the driver; the handlers read its message only. *)
Definition bind_error : error :=
  SqliteError "SQLite3 can only bind numbers, strings, bigints, buffers, and null".

(** ** [db.js] on the values of a request *)

(** [getBookById(id)] *)
Definition getBookById_raw (id : js_key) : M (option Book.t) :=
  match id with
  | CannotBind => throw bind_error
  | NoRow => ret None
  | Row i => getBookById i
  end.


(** The [updates] and [values] arrays of [updateBook]: a column for each
    truthy field, with the text bound for it. *)
Definition collect_raw (title author isbn : js_field) : list (column * option string) :=
  (if is_truthy title then [(Title, as_text title)] else []) ++
  (if is_truthy author then [(Author, as_text author)] else []) ++
  (if is_truthy isbn then [(Isbn, as_text isbn)] else []).

(** The values of [stmt.run(...values)], if the driver binds them all. *)
Fixpoint bind_all (updates : list (column * option string))
  : option (list (column * string)) :=
  match updates with
  | [] => Some []
  | (c, Some v) :: rest =>
      match bind_all rest with
      | Some bound => Some ((c, v) :: bound)
      | None => None
      end
  | (_, None) :: _ => None
  end.

(** [updateBook(id, { title, author, isbn })]; the id comes from the URL and
    is [None] when it is not the text of an integer. *)
Definition updateBook_raw (id : option Z) (title author isbn : js_field)
  : M (option Book.t) :=
  match id with
  | None => ret None
  | Some i =>
      book <- getBookById i ;;
      match book with
      | None => ret None
      | Some _ =>
          let updates := collect_raw title author isbn in
          n <- match updates with
               | [] => run_update_book i []
               | _ => match bind_all updates with
                      | Some bound => run_update_book i bound
                      | None => throw bind_error
                      end
               end ;;
          if 0 <? n then getBookById i else ret None
      end
  end.

(** [addBorrow(bookId, userEmail)] in the zone [z]; [userEmail] is the text
    bound for it, [None] when the driver refuses the value.  The UPDATE has
    run when the INSERT binds its arguments. *)
Definition addBorrow_raw (z : zone) (now1 now2 : Z) (bookId : js_key)
    (userEmail : option string) : M RunResult :=
  book <- getBookById_raw bookId ;;
  match book, bookId with
  | Some book, Row i =>
      if negb (Book.available book) then throw BookNotAvailable
      else
        let borrowDate := now1 in
        let returnDate := setDate_zone z now2 14 in
        set_available false i ;;;
        match userEmail with
        | Some e => insert_borrow i e borrowDate returnDate
        | None => throw bind_error
        end
  | _, _ => throw BookNotFound
  end.

(** ** The routes on the values of a request *)

(** [error.message === 'Book is not available'] *)
Definition is_unavailable (e : error) : bool :=
  (message e =? "Book is not available")%string.

(** [POST /borrow] *)
Definition post_borrow_raw (z : zone) (smtp : transport) (now1 now2 now3 : Z)
    (bookId : js_id) (userEmail : js_field) : db -> response * db :=
  try_catch
    (if negb (id_truthy bookId) || negb (is_truthy userEmail)
     then ret (mkResponse 400 (error_json "Book ID and user email are required"))
     else if negb (email_test (as_string userEmail))
     then ret (mkResponse 400 (error_json "Invalid email format"))
     else
       book <- getBookById_raw (id_key bookId) ;;
       match book with
       | None => ret (mkResponse 404 (error_json "Book not found"))
       | Some book =>
           borrow <- addBorrow_raw z now1 now2 (id_key bookId) (as_text userEmail) ;;
           let returnDate := setDate_zone z now3 14 in
           sendBorrowEmail smtp (as_string userEmail) (Book.title book) returnDate ;;;
           ret (mkResponse 200
                  (borrowed_json "Book borrowed successfully" borrow returnDate))
       end)
    (fun error =>
       if is_unavailable error
       then mkResponse 400 (error_json (message error))
       else mkResponse 500 (error_json (message error))).


(** [PUT /books/:id] *)
Definition put_book_raw (bookId : option Z) (title author isbn : js_field)
  : db -> response * db :=
  try_catch
    (if negb (is_truthy title) && negb (is_truthy author) && negb (is_truthy isbn)
     then ret (mkResponse 400 (error_json "At least one field to update is required"))
     else
       book <- updateBook_raw bookId title author isbn ;;
       match book with
       | None => ret (mkResponse 404 (error_json "Book not found"))
       | Some book => ret (mkResponse 200 (updated_json "Book updated successfully" book))
       end)
    (fun error => mkResponse 500 (error_json (message error))).

(** ** Calls the routes can make *)

(** A call of [db.js] with arguments of the documented types, or the one
    call the routes can make beyond them that writes: [addBorrow] with an
    email the pattern accepts after coercion and the driver refuses.  A
    typed [AddBorrow] stands for the call in any zone, its second reading
    being any instant (lemma [addBorrow_raw_text]); other values of a body
    either are stored as their text or make the single statement of the
    call throw before it writes. *)
Inductive call : Type :=
| Typed (o : op)
| UnboundBorrow (bookId : Z).

Definition call_step (c : call) (s : db) : db :=
  match c with
  | Typed o => step o s
  | UnboundBorrow i => snd (addBorrow_raw (fixed_zone 0) 0 0 (Row i) None s)
  end.

Definition call_run (calls : list call) (s : db) : db :=
  fold_left (fun s c => call_step c s) calls s.

Definition is_typed (c : call) : bool :=
  match c with Typed _ => true | UnboundBorrow _ => false end.

(** The calls with arguments of the documented types, in order. *)
Fixpoint typed_ops (calls : list call) : list op :=
  match calls with
  | [] => []
  | Typed o :: rest => o :: typed_ops rest
  | UnboundBorrow _ :: rest => typed_ops rest
  end.

(** * Predicates of the properties, and concrete databases *)

(** ** Keys *)

(** The constraints the schema and [sqlite_sequence] keep: primary keys are
    distinct, positive, and never above the counter of their table. *)
Record keys_ok (s : db) : Prop := mkKeys
  { book_ids_distinct : NoDup (map Book.id (books s));
    borrow_ids_distinct : NoDup (map Borrow.id (borrows s));
    book_ids_bounded : forall b, In b (books s) -> 0 < Book.id b <= seq_books s;
    borrow_ids_bounded : forall l, In l (borrows s) -> 0 < Borrow.id l <= seq_borrows s;
    seq_books_nonneg : 0 <= seq_books s;
    seq_borrows_nonneg : 0 <= seq_borrows s }.

(** An executable check of [keys_ok], for concrete databases. *)
Fixpoint distinct (l : list Z) : bool :=
  match l with
  | [] => true
  | x :: r => negb (existsb (Z.eqb x) r) && distinct r
  end.

Definition keys_okb (s : db) : bool :=
  distinct (map Book.id (books s)) && distinct (map Borrow.id (borrows s))
  && forallb (fun b => (0 <? Book.id b) && (Book.id b <=? seq_books s)) (books s)
  && forallb (fun l => (0 <? Borrow.id l) && (Borrow.id l <=? seq_borrows s)) (borrows s)
  && (0 <=? seq_books s) && (0 <=? seq_borrows s).

(** ** Availability and active loans *)

Definition active_loan_on (s : db) (bookId : Z) : Prop :=
  exists loan, In loan (borrows s)
               /\ Borrow.returned loan = false
               /\ Borrow.book_id loan = bookId.

(** The invariant of the data model: a book is unavailable exactly when an
    active loan refers to it. *)
Definition availability_invariant (s : db) : Prop :=
  forall book, In book (books s) ->
    (Book.available book = false <-> active_loan_on s (Book.id book)).

(** One half of it: an unavailable book has an active loan behind it. *)
Definition unavailable_backed (s : db) : Prop :=
  forall book, In book (books s) -> Book.available book = false ->
    active_loan_on s (Book.id book).

(** The other half: a book with an active loan is unavailable. *)
Definition lent_unavailable (s : db) : Prop :=
  forall book, In book (books s) -> active_loan_on s (Book.id book) ->
    Book.available book = false.

(** At most one active loan per book. *)
Definition one_active_loan (s : db) : Prop :=
  forall l1 l2, In l1 (borrows s) -> In l2 (borrows s) ->
    Borrow.returned l1 = false -> Borrow.returned l2 = false ->
    Borrow.book_id l1 = Borrow.book_id l2 -> l1 = l2.

(** Loans refer to book ids that have been handed out. *)
Definition refs_bounded (s : db) : Prop :=
  forall l, In l (borrows s) -> Borrow.book_id l <= seq_books s.

(** What every call keeps as long as no loan is returned twice. *)
Record ledger_ok (s : db) : Prop := mkLedger
  { ledger_keys : keys_ok s;
    ledger_lent : lent_unavailable s;
    ledger_one : one_active_loan s;
    ledger_refs : refs_bounded s }.

(** A call that is not the return of a loan already returned. *)
Definition first_return (o : op) (s : db) : Prop :=
  match o with
  | MarkAsReturned j =>
      forall l, In l (borrows s) -> Borrow.id l = j -> Borrow.returned l = false
  | _ => True
  end.

(** A sequence of calls in which no loan is returned twice. *)
Fixpoint no_double_return (ops : list op) (s : db) : Prop :=
  match ops with
  | [] => True
  | o :: rest => first_return o s /\ no_double_return rest (step o s)
  end.

(** ** Updates and patterns *)

(** The row [updateBook] writes: the fields given and not empty replace the
    old ones, the others and [id], [available] stay. *)
Definition updated (title author isbn : option string) (book : Book.t) : Book.t :=
  Book.mk (Book.id book)
          (if truthy title then value title else Book.title book)
          (if truthy author then value author else Book.author book)
          (if truthy isbn then value isbn else Book.isbn book)
          (Book.available book).

(** Every character of [s] is in the class [cls]. *)
Fixpoint all_chars (cls : ascii -> bool) (s : string) : bool :=
  match s with
  | EmptyString => true
  | String c r => cls c && all_chars cls r
  end.

(** ** Concrete databases and transports *)

(** One book on the shelf; the same book borrowed at instant 0; then
    returned; then borrowed again at instant 5. *)
Definition shelf (fk : bool) : db :=
  run [AddBook "A" "B" "978-0-13-468599-1"] (initDB fk).
Definition lent (fk : bool) : db :=
  run [AddBorrow 0 0 1 "x@y.com"] (shelf fk).
Definition back (fk : bool) : db :=
  run [MarkAsReturned 1] (lent fk).
Definition lent_again (fk : bool) : db :=
  run [AddBorrow 5 5 1 "z@y.com"] (back fk).

(** The book borrowed at 02:00 on day 0, hence due at 02:00 on day 14. *)
Definition lent_at_two : db :=
  run [AddBorrow 7200000 7200000 1 "x@y.com"] (shelf false).

(** Two books on the shelf. *)
Definition two_books : db :=
  run [AddBook "A" "B" "978-0-13-468599-1"; AddBook "C" "D" "978-0-13-468599-2"]
      (initDB false).

(** Both lent at instant 0 to two readers, hence due at the start of
    day 14. *)
Definition two_lent : db :=
  run [AddBorrow 0 0 1 "x@y.com"; AddBorrow 0 0 2 "z@y.com"] two_books.

Definition accept_all : transport := fun _ => None.
Definition reject_all : transport := fun _ => Some "Connection timeout".

(** A transport that rejects the mail to the first reader only. *)
Definition reject_x : transport :=
  fun m => if (userEmail m =? "x@y.com")%string then Some "Mailbox unavailable" else None.

(** ** Further invariants *)

(** The UNIQUE constraint of [books.isbn]. *)
Definition isbn_unique (s : db) : Prop := NoDup (map Book.isbn (books s)).

(** Every loan refers to a book of the catalog. *)
Definition refs_exist (s : db) : Prop :=
  forall l, In l (borrows s) ->
    exists b, In b (books s) /\ Book.id b = Borrow.book_id l.

(** [l'] is the loan [l], possibly returned since. *)
Definition same_loan (l l' : Borrow.t) : Prop :=
  Borrow.id l' = Borrow.id l
  /\ Borrow.book_id l' = Borrow.book_id l
  /\ Borrow.user_email l' = Borrow.user_email l
  /\ Borrow.borrow_date l' = Borrow.borrow_date l
  /\ Borrow.return_date l' = Borrow.return_date l
  /\ (Borrow.returned l = true -> Borrow.returned l' = true).

(** * Properties *)

(** ** Rows and keys *)

Ltac run_m :=
  unfold updateBook, deleteBook, addBorrow, markAsReturned, getBookById,
    run_delete_book, set_available, set_returned, insert_borrow, sendBorrowEmail,
    sendMail, bind, ret, throw, query in *;
  simpl in *.

Lemma find_book_some (i : Z) (l : list Book.t) (b : Book.t) :
  find (has_id i) l = Some b -> In b l /\ Book.id b = i.
Proof.
  intros H. apply find_some in H. destruct H as [Hin Hid].
  split; [exact Hin | now apply Z.eqb_eq in Hid].
Qed.

Lemma find_book_none (i : Z) (l : list Book.t) :
  find (has_id i) l = None <-> (forall b, In b l -> Book.id b <> i).
Proof.
  split.
  - intros H b Hin Hid. apply (find_none _ _ H) in Hin.
    unfold has_id in Hin. apply Z.eqb_neq in Hin. contradiction.
  - intros H. induction l as [|x l IH]; simpl; [reflexivity|].
    unfold has_id at 1. destruct (Book.id x =? i) eqn:E.
    + apply Z.eqb_eq in E. exfalso. apply (H x); [now left | exact E].
    + apply IH. intros b Hb. apply H. now right.
Qed.

Lemma find_borrow_some (i : Z) (l : list Borrow.t) (b : Borrow.t) :
  find (borrow_has_id i) l = Some b -> In b l /\ Borrow.id b = i.
Proof.
  intros H. apply find_some in H. destruct H as [Hin Hid].
  split; [exact Hin | now apply Z.eqb_eq in Hid].
Qed.

Lemma find_borrow_none (i : Z) (l : list Borrow.t) :
  find (borrow_has_id i) l = None <-> (forall b, In b l -> Borrow.id b <> i).
Proof.
  split.
  - intros H b Hin Hid. apply (find_none _ _ H) in Hin.
    unfold borrow_has_id in Hin. apply Z.eqb_neq in Hin. contradiction.
  - intros H. induction l as [|x l IH]; simpl; [reflexivity|].
    unfold borrow_has_id at 1. destruct (Borrow.id x =? i) eqn:E.
    + apply Z.eqb_eq in E. exfalso. apply (H x); [now left | exact E].
    + apply IH. intros b Hb. apply H. now right.
Qed.

(** Under a primary key, the row found by id is the row. *)
Lemma find_book_unique (l : list Book.t) (b : Book.t) :
  NoDup (map Book.id l) -> In b l -> find (has_id (Book.id b)) l = Some b.
Proof.
  induction l as [|x l IH]; simpl; intros Hnd Hin; [contradiction|].
  inversion Hnd as [|? ? Hx Hnd']; subst.
  destruct Hin as [->|Hin].
  - unfold has_id. now rewrite Z.eqb_refl.
  - unfold has_id at 1. destruct (Book.id x =? Book.id b) eqn:E.
    + apply Z.eqb_eq in E. exfalso. apply Hx. rewrite E. now apply in_map.
    + now apply IH.
Qed.

Lemma find_borrow_unique (l : list Borrow.t) (b : Borrow.t) :
  NoDup (map Borrow.id l) -> In b l -> find (borrow_has_id (Borrow.id b)) l = Some b.
Proof.
  induction l as [|x l IH]; simpl; intros Hnd Hin; [contradiction|].
  inversion Hnd as [|? ? Hx Hnd']; subst.
  destruct Hin as [->|Hin].
  - unfold borrow_has_id. now rewrite Z.eqb_refl.
  - unfold borrow_has_id at 1. destruct (Borrow.id x =? Borrow.id b) eqn:E.
    + apply Z.eqb_eq in E. exfalso. apply Hx. rewrite E. now apply in_map.
    + now apply IH.
Qed.

Lemma count_books_pos (i : Z) (s : db) :
  (0 <? count_books i s) = true <-> exists b, In b (books s) /\ Book.id b = i.
Proof.
  unfold count_books. rewrite Z.ltb_lt. split.
  - intros H. destruct (filter (has_id i) (books s)) as [|b r] eqn:E; simpl in H; [lia|].
    assert (Hb : In b (filter (has_id i) (books s))) by (rewrite E; now left).
    apply filter_In in Hb. destruct Hb as [Hin Hid].
    exists b. split; [exact Hin | now apply Z.eqb_eq in Hid].
  - intros [b [Hin Hid]].
    assert (Hb : In b (filter (has_id i) (books s))).
    { apply filter_In. split; [exact Hin | now apply Z.eqb_eq]. }
    destruct (filter (has_id i) (books s)); simpl in *; [contradiction | lia].
Qed.

Lemma count_borrows_pos (i : Z) (s : db) :
  (0 <? count_borrows i s) = true <-> exists b, In b (borrows s) /\ Borrow.id b = i.
Proof.
  unfold count_borrows. rewrite Z.ltb_lt. split.
  - intros H. destruct (filter (borrow_has_id i) (borrows s)) as [|b r] eqn:E; simpl in H; [lia|].
    assert (Hb : In b (filter (borrow_has_id i) (borrows s))) by (rewrite E; now left).
    apply filter_In in Hb. destruct Hb as [Hin Hid].
    exists b. split; [exact Hin | now apply Z.eqb_eq in Hid].
  - intros [b [Hin Hid]].
    assert (Hb : In b (filter (borrow_has_id i) (borrows s))).
    { apply filter_In. split; [exact Hin | now apply Z.eqb_eq]. }
    destruct (filter (borrow_has_id i) (borrows s)); simpl in *; [contradiction | lia].
Qed.

Lemma map_key_preserved {A K : Type} (key : A -> K) (f : A -> A) (l : list A) :
  (forall x, key (f x) = key x) -> map key (map f l) = map key l.
Proof.
  intros H. rewrite map_map. apply map_ext. exact H.
Qed.

Lemma NoDup_map_filter {A K : Type} (key : A -> K) (p : A -> bool) (l : list A) :
  NoDup (map key l) -> NoDup (map key (filter p l)).
Proof.
  induction l as [|x l IH]; simpl; intros H; [constructor|].
  inversion H as [|? ? Hx Hl]; subst.
  destruct (p x); simpl; [constructor|]; auto.
  intros Hin. apply Hx. apply in_map_iff in Hin. destruct Hin as [y [Hy Hin]].
  apply filter_In in Hin. rewrite <- Hy. apply in_map. tauto.
Qed.

Lemma distinct_NoDup (l : list Z) : distinct l = true -> NoDup l.
Proof.
  induction l as [|x l IH]; simpl; intros H; [constructor|].
  apply andb_true_iff in H. destruct H as [Hx Hl].
  constructor; [|auto].
  intros Hin. apply negb_true_iff in Hx.
  assert (existsb (Z.eqb x) l = true); [|congruence].
  apply existsb_exists. exists x. split; [exact Hin | apply Z.eqb_refl].
Qed.

Lemma keys_okb_sound (s : db) : keys_okb s = true -> keys_ok s.
Proof.
  unfold keys_okb. intros H.
  repeat (apply andb_true_iff in H; destruct H as [H ?]).
  constructor.
  - now apply distinct_NoDup.
  - now apply distinct_NoDup.
  - intros b Hb. rewrite forallb_forall in H3. specialize (H3 b Hb). lia.
  - intros l Hl. rewrite forallb_forall in H2. specialize (H2 l Hl). lia.
  - lia.
  - lia.
Qed.

Lemma update_where_keys {A K : Type} (key : A -> K) (p : A -> bool) (f : A -> A)
    (l : list A) :
  (forall x, key (f x) = key x) -> map key (update_where p f l) = map key l.
Proof.
  intros H. unfold update_where. apply map_key_preserved.
  intros x. destruct (p x); [apply H | reflexivity].
Qed.

Lemma in_update_where {A : Type} (p : A -> bool) (f : A -> A) (l : list A) (y : A) :
  In y (update_where p f l) <->
  exists x, In x l /\ y = (if p x then f x else x).
Proof.
  unfold update_where. rewrite in_map_iff. split.
  - intros [x [Hx Hin]]. exists x. split; [exact Hin | now symmetry].
  - intros [x [Hin Hx]]. exists x. split; [now symmetry | exact Hin].
Qed.

Lemma update_where_none {A : Type} (p : A -> bool) (f : A -> A) (l : list A) :
  (forall x, In x l -> p x = true -> f x = x) -> update_where p f l = l.
Proof.
  intros H. unfold update_where. rewrite <- (map_id l) at 2.
  apply map_ext_in. intros x Hx. destruct (p x) eqn:E; [now apply H | reflexivity].
Qed.

Lemma fold_assign_id (updates : list (column * string)) (b : Book.t) :
  Book.id (fold_left assign updates b) = Book.id b.
Proof.
  revert b. induction updates as [|[c v] us IH]; intros b; simpl; [reflexivity|].
  rewrite IH. now destruct c.
Qed.

Lemma fold_assign_available (updates : list (column * string)) (b : Book.t) :
  Book.available (fold_left assign updates b) = Book.available b.
Proof.
  revert b. induction updates as [|[c v] us IH]; intros b; simpl; [reflexivity|].
  rewrite IH. now destruct c.
Qed.

(** *** What each call of [db.js] does to the database *)

Lemma addBook_spec (title author isbn : string) (s : db) :
  (existsb (fun b => (Book.isbn b =? isbn)%string) (books s) = true /\
   addBook title author isbn s
   = (Throw (SqliteError "UNIQUE constraint failed: books.isbn"), s))
  \/
  (existsb (fun b => (Book.isbn b =? isbn)%string) (books s) = false /\
   addBook title author isbn s
   = (Ok (mkRun 1 (seq_books s + 1)),
      {| foreign_keys := foreign_keys s;
         books := books s ++ [Book.mk (seq_books s + 1) title author isbn true];
         borrows := borrows s;
         seq_books := seq_books s + 1;
         seq_borrows := seq_borrows s |})).
Proof.
  unfold addBook. destruct (existsb _ (books s)); [left | right]; split; reflexivity.
Qed.

Lemma addBorrow_missing (now1 now2 i : Z) (e : string) (s : db) :
  find (has_id i) (books s) = None ->
  addBorrow now1 now2 i e s = (Throw BookNotFound, s).
Proof. intros H. run_m. now rewrite H. Qed.

Lemma addBorrow_unavailable (now1 now2 i : Z) (e : string) (s : db) (book : Book.t) :
  find (has_id i) (books s) = Some book -> Book.available book = false ->
  addBorrow now1 now2 i e s = (Throw BookNotAvailable, s).
Proof. intros H Ha. run_m. rewrite H. now rewrite Ha. Qed.

Lemma count_books_update (i j : Z) (f : Book.t -> Book.t) (s : db) :
  (forall x, Book.id (f x) = Book.id x) ->
  count_books i (set_books s (update_where (has_id j) f (books s))) = count_books i s.
Proof.
  intros H. unfold count_books, update_where. simpl. f_equal.
  induction (books s) as [|x l IH]; simpl; [reflexivity|].
  assert (E : has_id i (if has_id j x then f x else x) = has_id i x).
  { destruct (has_id j x); [|reflexivity]. unfold has_id. now rewrite H. }
  rewrite E. destruct (has_id i x); simpl; now rewrite IH.
Qed.

Lemma addBorrow_available (now1 now2 i : Z) (e : string) (s : db) (book : Book.t) :
  find (has_id i) (books s) = Some book -> Book.available book = true ->
  addBorrow now1 now2 i e s
  = (Ok (mkRun 1 (seq_borrows s + 1)),
     {| foreign_keys := foreign_keys s;
        books := update_where (has_id i) (with_available false) (books s);
        borrows := borrows s
                   ++ [Borrow.mk (seq_borrows s + 1) i e now1 (setDate_plus now2 14) false];
        seq_books := seq_books s;
        seq_borrows := seq_borrows s + 1 |}).
Proof.
  intros H Ha. run_m. rewrite H, Ha. simpl.
  assert (Hc : (0 <? count_books i
                    (set_books s (update_where (has_id i) (with_available false) (books s))))
               = true).
  { rewrite count_books_update by reflexivity.
    apply count_books_pos. exists book. now apply find_book_some. }
  rewrite Hc. simpl. rewrite andb_false_r. reflexivity.
Qed.

Lemma markAsReturned_missing (i : Z) (s : db) :
  find (borrow_has_id i) (borrows s) = None ->
  markAsReturned i s = (Throw BorrowNotFound, s).
Proof. intros H. run_m. now rewrite H. Qed.

Lemma markAsReturned_found (i : Z) (s : db) (loan : Borrow.t) :
  find (borrow_has_id i) (borrows s) = Some loan ->
  markAsReturned i s
  = (Ok true,
     {| foreign_keys := foreign_keys s;
        books := update_where (has_id (Borrow.book_id loan)) (with_available true) (books s);
        borrows := update_where (borrow_has_id i) (with_returned true) (borrows s);
        seq_books := seq_books s;
        seq_borrows := seq_borrows s |}).
Proof.
  intros H. run_m. rewrite H. simpl.
  assert (Hc : (0 <? count_borrows i
                    (set_books s (update_where (has_id (Borrow.book_id loan))
                                               (with_available true) (books s))))
               = true).
  { apply count_borrows_pos. exists loan. simpl. now apply find_borrow_some. }
  rewrite Hc. reflexivity.
Qed.

Lemma updateBook_missing (i : Z) (title author isbn : option string) (s : db) :
  find (has_id i) (books s) = None ->
  updateBook i title author isbn s = (Ok None, s).
Proof. intros H. run_m. now rewrite H. Qed.

Lemma find_update_where (i : Z) (f : Book.t -> Book.t) (l : list Book.t) :
  (forall x, Book.id (f x) = Book.id x) ->
  find (has_id i) (update_where (has_id i) f l) = option_map f (find (has_id i) l).
Proof.
  intros H. induction l as [|x l IH]; simpl; [reflexivity|].
  destruct (has_id i x) eqn:E; simpl.
  - unfold has_id in *. now rewrite H, E.
  - now rewrite E.
Qed.

Lemma run_update_book_ok (i : Z) (updates : list (column * string)) (s : db) :
  updates <> [] ->
  (0 <? count_books i s) && isbn_clash i updates s = false ->
  run_update_book i updates s
  = (Ok (count_books i s),
     set_books s (update_where (has_id i) (fun b => fold_left assign updates b) (books s))).
Proof.
  intros Hne Hc. unfold run_update_book.
  destruct updates as [|u us]; [congruence|]. now rewrite Hc.
Qed.

Lemma updateBook_found (i : Z) (title author isbn : option string) (s : db)
    (book : Book.t) :
  find (has_id i) (books s) = Some book ->
  collect_updates title author isbn <> [] ->
  isbn_clash i (collect_updates title author isbn) s = false ->
  updateBook i title author isbn s
  = (Ok (Some (fold_left assign (collect_updates title author isbn) book)),
     set_books s
       (update_where (has_id i)
          (fun b => fold_left assign (collect_updates title author isbn) b) (books s))).
Proof.
  intros H Hne Hclash. unfold updateBook, getBookById, bind, query. rewrite H.
  rewrite run_update_book_ok by (try assumption; now rewrite Hclash, andb_false_r).
  assert (Hc : (0 <? count_books i s) = true).
  { apply count_books_pos. exists book. now apply find_book_some. }
  rewrite Hc. simpl books.
  rewrite find_update_where by (intros x; apply fold_assign_id).
  now rewrite H.
Qed.

Lemma updateBook_clash (i : Z) (title author isbn : option string) (s : db)
    (book : Book.t) :
  find (has_id i) (books s) = Some book ->
  isbn_clash i (collect_updates title author isbn) s = true ->
  updateBook i title author isbn s
  = (Throw (SqliteError "UNIQUE constraint failed: books.isbn"), s).
Proof.
  intros H Hclash. unfold updateBook, getBookById, bind, query. rewrite H.
  unfold run_update_book.
  destruct (collect_updates title author isbn) as [|u us] eqn:E;
    [simpl in Hclash; discriminate|].
  assert (Hc : (0 <? count_books i s) = true).
  { apply count_books_pos. exists book. now apply find_book_some. }
  now rewrite Hc, Hclash.
Qed.

Lemma updateBook_state (i : Z) (title author isbn : option string) (s : db) :
  snd (updateBook i title author isbn s) = s
  \/ snd (updateBook i title author isbn s)
     = set_books s
         (update_where (has_id i)
            (fun b => fold_left assign (collect_updates title author isbn) b) (books s)).
Proof.
  unfold updateBook, getBookById, bind, query, ret.
  destruct (find (has_id i) (books s)); [|now left].
  unfold run_update_book.
  destruct (collect_updates title author isbn) as [|u us]; [now left|].
  destruct ((0 <? count_books i s) && isbn_clash i (u :: us) s); [now left|].
  right. match goal with
         | |- context [if ?c then _ else _] => destruct c
         end; reflexivity.
Qed.

Lemma deleteBook_spec (i : Z) (s : db) :
  (fk_violation i s = true /\
   deleteBook i s = (Throw (SqliteError "FOREIGN KEY constraint failed"), s))
  \/
  (fk_violation i s = false /\
   deleteBook i s
   = (Ok (0 <? count_books i s),
      set_books s (filter (fun b => negb (has_id i b)) (books s)))).
Proof.
  unfold deleteBook, run_delete_book, bind, ret.
  destruct (fk_violation i s); [left | right]; split; reflexivity.
Qed.

(** *** The key constraints hold in every state the program reaches *)

Lemma keys_ok_set_books (s : db) (l : list Book.t) :
  keys_ok s -> map Book.id l = map Book.id (books s) -> keys_ok (set_books s l).
Proof.
  intros [H1 H2 H3 H4] E. constructor; simpl; try assumption.
  - now rewrite E.
  - intros b Hb. apply (in_map Book.id) in Hb. rewrite E in Hb.
    apply in_map_iff in Hb. destruct Hb as [b' [Hid Hb']]. rewrite <- Hid. now apply H3.
Qed.

Lemma keys_ok_set_borrows (s : db) (l : list Borrow.t) :
  keys_ok s -> map Borrow.id l = map Borrow.id (borrows s) -> keys_ok (set_borrows s l).
Proof.
  intros [H1 H2 H3 H4] E. constructor; simpl; try assumption.
  - now rewrite E.
  - intros b Hb. apply (in_map Borrow.id) in Hb. rewrite E in Hb.
    apply in_map_iff in Hb. destruct Hb as [b' [Hid Hb']]. rewrite <- Hid. now apply H4.
Qed.

Lemma NoDup_snoc_fresh (l : list Z) (n : Z) :
  NoDup l -> (forall x, In x l -> x < n) -> NoDup (l ++ [n]).
Proof.
  intros Hnd Hlt. induction l as [|x l IH]; simpl.
  - constructor; [intros [] | constructor].
  - inversion Hnd as [|? ? Hx Hl]; subst. constructor.
    + rewrite in_app_iff. intros [Hin | [Heq | []]]; [contradiction|].
      specialize (Hlt x (or_introl eq_refl)). lia.
    + apply IH; [exact Hl|]. intros y Hy. apply Hlt. now right.
Qed.

Lemma addBook_keys_ok (t a i : string) (s : db) :
  keys_ok s -> keys_ok (snd (addBook t a i s)).
Proof.
  intros K. destruct (addBook_spec t a i s) as [[_ E] | [_ E]]; rewrite E; simpl;
    [exact K|].
  destruct K as [H1 H2 H3 H4 H5 H6]. constructor; simpl; try assumption; try lia.
  - rewrite map_app. simpl. apply NoDup_snoc_fresh; [exact H1|].
    intros x Hx. apply in_map_iff in Hx. destruct Hx as [b [<- Hb]].
    specialize (H3 b Hb). lia.
  - intros b Hb. apply in_app_iff in Hb. destruct Hb as [Hb | [<- | []]].
    + specialize (H3 b Hb). lia.
    + simpl. lia.
Qed.

Lemma updateBook_keys_ok (i : Z) (t a n : option string) (s : db) :
  keys_ok s -> keys_ok (snd (updateBook i t a n s)).
Proof.
  intros K. destruct (updateBook_state i t a n s) as [E | E]; rewrite E; [exact K|].
  apply keys_ok_set_books; [exact K|].
  apply update_where_keys. intros x. apply fold_assign_id.
Qed.

Lemma deleteBook_keys_ok (i : Z) (s : db) :
  keys_ok s -> keys_ok (snd (deleteBook i s)).
Proof.
  intros K. destruct (deleteBook_spec i s) as [[_ E] | [_ E]]; rewrite E; simpl;
    [exact K|].
  destruct K as [H1 H2 H3 H4 H5 H6]. constructor; simpl; try assumption.
  - now apply NoDup_map_filter.
  - intros b Hb. apply filter_In in Hb. now apply H3.
Qed.

Lemma addBorrow_keys_ok (n1 n2 b : Z) (e : string) (s : db) :
  keys_ok s -> keys_ok (snd (addBorrow n1 n2 b e s)).
Proof.
  intros K. destruct (find (has_id b) (books s)) as [book|] eqn:F.
  - destruct (Book.available book) eqn:A.
    + rewrite (addBorrow_available _ _ _ _ _ _ F A). simpl.
      destruct K as [H1 H2 H3 H4 H5 H6]. constructor; simpl; try assumption; try lia.
      * now rewrite update_where_keys by reflexivity.
      * rewrite map_app. simpl. apply NoDup_snoc_fresh; [exact H2|].
        intros x Hx. apply in_map_iff in Hx. destruct Hx as [l [<- Hl]].
        specialize (H4 l Hl). lia.
      * intros x Hx. apply in_update_where in Hx. destruct Hx as [y [Hy ->]].
        specialize (H3 y Hy). now destruct (has_id b y).
      * intros l Hl. apply in_app_iff in Hl. destruct Hl as [Hl | [<- | []]].
        -- specialize (H4 l Hl). lia.
        -- simpl. lia.
    + now rewrite (addBorrow_unavailable _ _ _ _ _ _ F A).
  - now rewrite (addBorrow_missing _ _ _ _ _ F).
Qed.

Lemma markAsReturned_keys_ok (i : Z) (s : db) :
  keys_ok s -> keys_ok (snd (markAsReturned i s)).
Proof.
  intros K. destruct (find (borrow_has_id i) (borrows s)) as [loan|] eqn:F.
  - rewrite (markAsReturned_found _ _ _ F). simpl.
    destruct K as [H1 H2 H3 H4 H5 H6]. constructor; simpl; try assumption.
    + now rewrite update_where_keys by reflexivity.
    + now rewrite update_where_keys by reflexivity.
    + intros x Hx. apply in_update_where in Hx. destruct Hx as [y [Hy ->]].
      specialize (H3 y Hy). now destruct (has_id _ y).
    + intros x Hx. apply in_update_where in Hx. destruct Hx as [y [Hy ->]].
      specialize (H4 y Hy). now destruct (borrow_has_id _ y).
  - now rewrite (markAsReturned_missing _ _ F).
Qed.

Lemma step_keys_ok (o : op) (s : db) : keys_ok s -> keys_ok (step o s).
Proof.
  destruct o; simpl.
  - apply addBook_keys_ok.
  - apply updateBook_keys_ok.
  - apply deleteBook_keys_ok.
  - apply addBorrow_keys_ok.
  - apply markAsReturned_keys_ok.
Qed.

Lemma run_keys_ok (ops : list op) (s : db) : keys_ok s -> keys_ok (run ops s).
Proof.
  revert s. induction ops as [|o ops IH]; intros s K; simpl; [exact K|].
  apply IH. now apply step_keys_ok.
Qed.

Lemma initDB_keys_ok (fk : bool) : keys_ok (initDB fk).
Proof.
  constructor; simpl; try constructor; try lia; intros ? [].
Qed.

Lemma reachable_keys_ok (s : db) : reachable s -> keys_ok s.
Proof.
  intros [fk [ops ->]]. apply run_keys_ok, initDB_keys_ok.
Qed.

Lemma run_app (ops1 ops2 : list op) (s : db) :
  run (ops1 ++ ops2) s = run ops2 (run ops1 s).
Proof. unfold run. apply fold_left_app. Qed.

Lemma reachable_run (ops : list op) (s : db) : reachable s -> reachable (run ops s).
Proof.
  intros [fk [ops0 ->]]. exists fk, (ops0 ++ ops). now rewrite run_app.
Qed.

Lemma same_key_same_book (s : db) (b1 b2 : Book.t) :
  keys_ok s -> In b1 (books s) -> In b2 (books s) -> Book.id b1 = Book.id b2 -> b1 = b2.
Proof.
  intros K H1 H2 E.
  pose proof (find_book_unique _ _ (book_ids_distinct _ K) H1) as F1.
  pose proof (find_book_unique _ _ (book_ids_distinct _ K) H2) as F2.
  rewrite E in F1. congruence.
Qed.

Lemma same_key_same_borrow (s : db) (l1 l2 : Borrow.t) :
  keys_ok s -> In l1 (borrows s) -> In l2 (borrows s) -> Borrow.id l1 = Borrow.id l2 ->
  l1 = l2.
Proof.
  intros K H1 H2 E.
  pose proof (find_borrow_unique _ _ (borrow_ids_distinct _ K) H1) as F1.
  pose proof (find_borrow_unique _ _ (borrow_ids_distinct _ K) H2) as F2.
  rewrite E in F1. congruence.
Qed.

Lemma truthyZ_id (s : db) (book : Book.t) :
  keys_ok s -> In book (books s) -> truthyZ (Some (Book.id book)) = true.
Proof.
  intros K Hin. simpl. apply negb_true_iff, Z.eqb_neq.
  pose proof (book_ids_bounded _ K _ Hin). lia.
Qed.

Lemma bind_ok {A B : Type} (m : M A) (k : A -> M B) (s s' : db) (a : A) :
  m s = (Ok a, s') -> bind m k s = k a s'.
Proof. intros H. unfold bind. now rewrite H. Qed.

Lemma bind_throw {A B : Type} (m : M A) (k : A -> M B) (s s' : db) (e : error) :
  m s = (Throw e, s') -> bind m k s = (Throw e, s').
Proof. intros H. unfold bind. now rewrite H. Qed.

Lemma getBookById_eq (i : Z) (s : db) :
  getBookById i s = (Ok (find (has_id i) (books s)), s).
Proof. reflexivity. Qed.

(** ** The pattern of the borrow route *)

Lemma match_plus (cls : ascii -> bool) (re : list atom) (s : string) :
  match_re (Plus cls :: re) s = true <->
  exists a r, s = (a ++ r)%string /\ a <> "" /\ all_chars cls a = true
              /\ match_re re r = true.
Proof.
  induction s as [|c s IH].
  - simpl. split; [discriminate|].
    intros [a [r [E [Ha _]]]]. destruct a; [congruence | discriminate].
  - change (match_re (Plus cls :: re) (String c s))
      with (cls c && (match_re (Plus cls :: re) s || match_re re s)).
    rewrite andb_true_iff, orb_true_iff, IH. split.
    + intros [Hc [[a [r [E [Ha [Hall Hr]]]]] | Hr]].
      * exists (String c a), r. simpl. rewrite E, Hc, Hall. repeat split; congruence.
      * exists (String c ""), s. simpl. rewrite Hc. repeat split; congruence.
    + intros [a [r [E [Ha [Hall Hr]]]]].
      destruct a as [|c' a]; [congruence|].
      simpl in E, Hall. injection E as <- ->.
      apply andb_true_iff in Hall. destruct Hall as [Hc Hall].
      split; [exact Hc|].
      destruct a as [|c'' a'].
      * right. exact Hr.
      * left. exists (String c'' a'), r. repeat split; try assumption. discriminate.
Qed.

Lemma match_lit (c : ascii) (re : list atom) (s : string) :
  match_re (Lit c :: re) s = true <-> exists r, s = String c r /\ match_re re r = true.
Proof.
  destruct s as [|c' s]; simpl.
  - split; [discriminate | intros [r [E _]]; discriminate].
  - rewrite andb_true_iff, Ascii.eqb_eq. split.
    + intros [-> Hr]. now exists s.
    + intros [r [E Hr]]. injection E as -> ->. now split.
Qed.

(** X17: [POST /borrow] accepts as email exactly the strings of the form
    [local@domain.tld] whose three parts are non-empty and free of white
    space and of [@] (the domain and the last part may contain dots). *)
Lemma email_test_iff (s : string) :
  email_test s = true <->
  exists a b c,
    s = (a ++ String "@" (b ++ String "." c))%string
    /\ a <> "" /\ b <> "" /\ c <> ""
    /\ all_chars not_space_at a = true
    /\ all_chars not_space_at b = true
    /\ all_chars not_space_at c = true.
Proof.
  unfold email_test. rewrite match_plus. split.
  - intros [a [r [-> [Ha [Hall Hr]]]]].
    apply match_lit in Hr. destruct Hr as [r1 [-> Hr]].
    apply match_plus in Hr. destruct Hr as [b [r2 [-> [Hb [Hallb Hr]]]]].
    apply match_lit in Hr. destruct Hr as [r3 [-> Hr]].
    apply match_plus in Hr. destruct Hr as [c [r4 [-> [Hc [Hallc Hr]]]]].
    destruct r4; [|discriminate].
    exists a, b, c. replace (c ++ "")%string with c.
    + repeat split; assumption.
    + clear. induction c as [|x c IH]; simpl; congruence.
  - intros [a [b [c [-> [Ha [Hb [Hc [Halla [Hallb Hallc]]]]]]]]].
    exists a, (String "@" (b ++ String "." c)). repeat split; try assumption.
    apply match_lit. exists (b ++ String "." c)%string. split; [reflexivity|].
    apply match_plus. exists b, (String "." c). repeat split; try assumption.
    apply match_lit. exists c. split; [reflexivity|].
    apply match_plus. exists c, "". repeat split; try assumption.
    clear. induction c as [|x c IH]; simpl; congruence.
Qed.

(** ** Borrowing *)

(** C3: for every book whose [available] is false, a borrow request for it
    fails: [addBorrow] throws 'Book is not available', which the route
    answers with 400; no loan is created and the database (the book row and
    every loan row) is exactly what it was.  Whatever the rest of the
    request, the status is 400 and nothing is written; the body carries the
    business-rule message as soon as the request passes the format checks
    that precede the lookup. *)
Theorem borrow_unavailable_rejected (smtp : transport) (now1 now2 now3 : Z) (s : db)
    (book : Book.t) (userEmail : option string) :
  keys_ok s -> In book (books s) -> Book.available book = false ->
  let bookId := Book.id book in
  let answer := post_borrow smtp now1 now2 now3 (Some bookId) userEmail s in
  addBorrow now1 now2 bookId (value userEmail) s = (Throw BookNotAvailable, s)
  /\ status (fst answer) = 400
  /\ snd answer = s
  /\ (truthy userEmail = true -> email_test (value userEmail) = true ->
      fst answer = mkResponse 400 (error_json "Book is not available")).
Proof.
  intros K Hin Ha bookId answer.
  pose proof (find_book_unique _ _ (book_ids_distinct _ K) Hin) as F.
  pose proof (addBorrow_unavailable now1 now2 _ (value userEmail) _ _ F Ha) as E.
  pose proof (truthyZ_id _ _ K Hin) as Tz.
  split; [exact E|].
  subst answer bookId. unfold post_borrow, try_catch.
  rewrite Tz. simpl negb. simpl orb.
  destruct (truthy userEmail) eqn:Tu; simpl.
  - destruct (email_test (value userEmail)) eqn:Te; simpl.
    + simpl valueZ.
      rewrite (bind_ok _ _ _ _ _ (getBookById_eq _ s)), F.
      rewrite (bind_throw _ _ _ _ _ E).
      repeat split; reflexivity.
    + repeat split; try reflexivity. intros _ Hf. discriminate.
  - repeat split; try reflexivity. intros Hf. discriminate.
Qed.

(** C10: when the transport rejects the confirmation mail after [addBorrow]
    has returned, [POST /borrow] answers 500 with the transport's message,
    and the database is the one [addBorrow] left: the book is unavailable
    and the new loan row is there.  Nothing is rolled back. *)
Theorem borrow_mail_failure_not_rolled_back (smtp : transport) (now1 now2 now3 : Z)
    (s s1 : db) (bookId : Z) (userEmail msg : string) (book : Book.t) (r : RunResult) :
  bookId <> 0 -> userEmail <> "" -> email_test userEmail = true ->
  find (has_id bookId) (books s) = Some book ->
  addBorrow now1 now2 bookId userEmail s = (Ok r, s1) ->
  smtp (mkMail BorrowNotice userEmail (Book.title book) (setDate_plus now3 14)) = Some msg ->
  post_borrow smtp now1 now2 now3 (Some bookId) (Some userEmail) s
  = (mkResponse 500 (error_json msg), s1)
  /\ (forall b, In b (books s1) -> Book.id b = bookId -> Book.available b = false)
  /\ (exists b, In b (books s1) /\ Book.id b = bookId)
  /\ In (Borrow.mk (lastInsertRowid r) bookId userEmail now1 (setDate_plus now2 14) false)
        (borrows s1)
  /\ List.length (borrows s1) = S (List.length (borrows s)).
Proof.
  intros Hid Hne Hre F E Hsmtp.
  assert (Ha : Book.available book = true).
  { destruct (Book.available book) eqn:A; [reflexivity|].
    rewrite (addBorrow_unavailable _ _ _ _ _ _ F A) in E. discriminate. }
  rewrite (addBorrow_available _ _ _ _ _ _ F Ha) in E.
  injection E as <- <-.
  split.
  - unfold post_borrow, try_catch, truthyZ, truthy, value, valueZ.
    assert (T1 : (bookId =? 0) = false) by now apply Z.eqb_neq.
    assert (T2 : (userEmail =? "")%string = false) by now apply String.eqb_neq.
    rewrite T1, T2, Hre. cbn [negb orb].
    rewrite (bind_ok _ _ _ _ _ (getBookById_eq _ s)), F.
    rewrite (bind_ok _ _ _ _ _ (addBorrow_available _ _ _ _ _ _ F Ha)).
    unfold bind, sendBorrowEmail, sendMail. rewrite Hsmtp. reflexivity.
  - simpl. repeat split.
    + intros b Hb Hbid. apply in_update_where in Hb. destruct Hb as [x [Hx ->]].
      destruct (has_id bookId x) eqn:Hx2; [reflexivity|].
      unfold has_id in Hx2. apply Z.eqb_neq in Hx2. contradiction.
    + exists (with_available false book). apply find_book_some in F. destruct F as [Fin Fid].
      split; [|exact Fid]. apply in_update_where. exists book. split; [exact Fin|].
      unfold has_id. rewrite Fid, Z.eqb_refl. reflexivity.
    + apply in_app_iff. right. now left.
    + rewrite length_app. simpl. lia.
Qed.

Lemma borrow_unavailable_rejected_witness :
  let s := lent false in
  let answer := post_borrow accept_all 5 5 5 (Some 1) (Some "z@y.com") s in
  addBorrow 5 5 1 "z@y.com" s = (Throw BookNotAvailable, s)
  /\ status (fst answer) = 400
  /\ snd answer = s
  /\ (truthy (Some "z@y.com") = true -> email_test "z@y.com" = true ->
      fst answer = mkResponse 400 (error_json "Book is not available")).
Proof.
  apply (borrow_unavailable_rejected accept_all 5 5 5 (lent false)
           (Book.mk 1 "A" "B" "978-0-13-468599-1" false) (Some "z@y.com")).
  - apply keys_okb_sound. reflexivity.
  - simpl. left. reflexivity.
  - reflexivity.
Defined.

Lemma borrow_mail_failure_not_rolled_back_witness :
  post_borrow reject_all 0 0 0 (Some 1) (Some "x@y.com") (shelf false)
  = (mkResponse 500 (error_json "Connection timeout"), lent false)
  /\ (forall b, In b (books (lent false)) -> Book.id b = 1 -> Book.available b = false)
  /\ (exists b, In b (books (lent false)) /\ Book.id b = 1)
  /\ In (Borrow.mk 1 1 "x@y.com" 0 (setDate_plus 0 14) false) (borrows (lent false))
  /\ List.length (borrows (lent false)) = S (List.length (borrows (shelf false))).
Proof.
  apply (borrow_mail_failure_not_rolled_back reject_all 0 0 0 (shelf false) (lent false)
           1 "x@y.com" "Connection timeout"
           (Book.mk 1 "A" "B" "978-0-13-468599-1" true) (mkRun 1 1)).
  - lia.
  - discriminate.
  - reflexivity.
  - reflexivity.
  - reflexivity.
  - reflexivity.
Defined.

(** *** Borrowing in any zone, with any value of a body *)

Lemma setDate_fixed (c d n : Z) : setDate_zone (fixed_zone c) d n = setDate_plus d n.
Proof. unfold setDate_zone, setDate_plus. simpl. lia. Qed.

(** Local wall-clock time is what [setDate] keeps. *)
Lemma setDate_wall_clock (z : zone) (d n : Z) :
  setDate_zone z d n + offset_local z (d + offset_utc z d + n * ms_per_day)
  = (d + offset_utc z d) + n * ms_per_day.
Proof. unfold setDate_zone. lia. Qed.

(** With a text email, [addBorrow] in a zone is [addBorrow] at the instant
    that has the same return date under a constant offset. *)
Lemma addBorrow_raw_text (z : zone) (now1 now2 i : Z) (e : string) (s : db) :
  addBorrow_raw z now1 now2 (Row i) (Some e) s
  = addBorrow now1 (setDate_zone z now2 14 - 14 * ms_per_day) i e s.
Proof.
  assert (H : setDate_plus (setDate_zone z now2 14 - 14 * ms_per_day) 14
              = setDate_zone z now2 14) by (unfold setDate_plus; lia).
  unfold addBorrow_raw, addBorrow, getBookById_raw, bind, getBookById, query.
  destruct (find (has_id i) (books s)) as [book|]; [|reflexivity].
  destruct (Book.available book); [|reflexivity]. cbn [negb].
  now rewrite H.
Qed.

Lemma addBorrow_raw_available (z : zone) (now1 now2 i : Z) (e : string) (s : db)
    (book : Book.t) :
  find (has_id i) (books s) = Some book -> Book.available book = true ->
  addBorrow_raw z now1 now2 (Row i) (Some e) s
  = (Ok (mkRun 1 (seq_borrows s + 1)),
     {| foreign_keys := foreign_keys s;
        books := update_where (has_id i) (with_available false) (books s);
        borrows := borrows s
                   ++ [Borrow.mk (seq_borrows s + 1) i e now1 (setDate_zone z now2 14) false];
        seq_books := seq_books s;
        seq_borrows := seq_borrows s + 1 |}).
Proof.
  intros F A. rewrite addBorrow_raw_text, (addBorrow_available _ _ _ _ _ _ F A).
  replace (setDate_plus (setDate_zone z now2 14 - 14 * ms_per_day) 14)
    with (setDate_zone z now2 14) by (unfold setDate_plus; lia).
  reflexivity.
Qed.

Lemma addBorrow_raw_unavailable (z : zone) (now1 now2 i : Z) (e : option string)
    (s : db) (book : Book.t) :
  find (has_id i) (books s) = Some book -> Book.available book = false ->
  addBorrow_raw z now1 now2 (Row i) e s = (Throw BookNotAvailable, s).
Proof.
  intros F A. unfold addBorrow_raw, getBookById_raw, bind, getBookById, query.
  now rewrite F, A.
Qed.

(** The partial write: the driver refuses the email when the INSERT binds
    it, after the UPDATE has made the book unavailable. *)
Lemma addBorrow_raw_unbound (z : zone) (now1 now2 i : Z) (s : db) (book : Book.t) :
  find (has_id i) (books s) = Some book -> Book.available book = true ->
  addBorrow_raw z now1 now2 (Row i) None s
  = (Throw bind_error,
     set_books s (update_where (has_id i) (with_available false) (books s))).
Proof.
  intros F A. unfold addBorrow_raw, getBookById_raw, bind, getBookById, query.
  now rewrite F, A.
Qed.

(** C2, as stated, fails: on the database of the program, the book is on the
    shelf and the request names it with a well-formed text email, yet the
    request does not succeed and returns neither a loan nor a return date,
    because the transport rejects the confirmation mail. *)
Lemma borrow_of_available_book_can_fail :
  let s := shelf true in
  let answer :=
    post_borrow_raw (fixed_zone 0) reject_all 0 0 0 (number_id 1)
                    (text_field "x@y.com") s in
  In (Book.mk 1 "A" "B" "978-0-13-468599-1" true) (books s)
  /\ fst answer = mkResponse 500 (error_json "Connection timeout").
Proof.
  split; [left; reflexivity | reflexivity].
Qed.

(** Where the clocks go forward one hour between the borrow and the return
    date, the return date is 14 days less one hour after the borrow date. *)
Example return_date_keeps_wall_clock :
  let hour := 3600000 in
  let summer_from := 7 * ms_per_day in
  let z := mkZone (fun t => if t <? summer_from then 0 else hour)
                  (fun t => if t <? summer_from then 0 else hour) in
  let s := snd (addBorrow_raw z 0 0 (Row 1) (Some "x@y.com") (shelf true)) in
  forall loan, In loan (borrows s) ->
    Borrow.borrow_date loan = 0
    /\ Borrow.return_date loan = 14 * ms_per_day - hour.
Proof.
  simpl. intros loan [<- | []]. split; reflexivity.
Qed.

(** C2, as amended: for every book whose [available] is true, a borrow
    request whose [bookId] is truthy and designates the book and whose
    [userEmail] is a text accepted by the pattern of the route commits the
    borrow.  Every row of that id becomes unavailable and exactly one loan
    row is appended, with a fresh id, [returned = false], the first clock
    reading as borrow date and as return date the instant [setDate] gives
    for the second reading: the same local wall-clock time 14 calendar days
    later, which is the second reading plus 14 times 24 hours when the
    offset of the zone is the same at both ends, and the borrow date plus 14
    days when moreover the two readings agree.  If the transport accepts the
    confirmation mail the answer is 200 with the INSERT's run result
    ([changes = 1], [lastInsertRowid] the id of the new loan) and a return
    date computed in the same way from the route's own clock reading; if it
    rejects the mail the answer is 500 with the message of the rejection,
    unless that message is the very one of an unavailable book, which the
    handler answers with 400. *)
Theorem borrow_request_commits (z : zone) (smtp : transport) (now1 now2 now3 : Z)
    (s : db) (book : Book.t) (bookId : js_id) (userEmail : string) :
  keys_ok s -> In book (books s) -> Book.available book = true ->
  id_truthy bookId = true -> id_key bookId = Row (Book.id book) ->
  userEmail <> "" -> email_test userEmail = true ->
  let due := setDate_zone z now2 14 in
  let loan := Borrow.mk (seq_borrows s + 1) (Book.id book) userEmail now1 due false in
  let shown := setDate_zone z now3 14 in
  let notice := mkMail BorrowNotice userEmail (Book.title book) shown in
  let answer :=
    post_borrow_raw z smtp now1 now2 now3 bookId (text_field userEmail) s in
  borrows (snd answer) = borrows s ++ [loan]
  /\ (forall l, In l (borrows s) -> Borrow.id l <> Borrow.id loan)
  /\ Borrow.returned loan = false
  /\ books (snd answer)
     = update_where (has_id (Book.id book)) (with_available false) (books s)
  /\ (exists b, In b (books (snd answer)) /\ Book.id b = Book.id book
                /\ Book.available b = false
                /\ Book.title b = Book.title book /\ Book.author b = Book.author book
                /\ Book.isbn b = Book.isbn book)
  /\ (forall b, In b (books (snd answer)) -> Book.id b = Book.id book ->
      Book.available b = false)
  /\ (forall b, In b (books s) -> Book.id b <> Book.id book ->
      In b (books (snd answer)))
  /\ due + offset_local z (now2 + offset_utc z now2 + 14 * ms_per_day)
     = now2 + offset_utc z now2 + 14 * ms_per_day
  /\ (offset_local z (now2 + offset_utc z now2 + 14 * ms_per_day) = offset_utc z now2 ->
      Borrow.return_date loan = now2 + 14 * ms_per_day
      /\ (now1 = now2 ->
          Borrow.return_date loan = Borrow.borrow_date loan + 14 * ms_per_day))
  /\ (smtp notice = None ->
      fst answer = mkResponse 200
                     (borrowed_json "Book borrowed successfully"
                                    (mkRun 1 (Borrow.id loan)) shown))
  /\ (forall msg, smtp notice = Some msg -> msg <> "Book is not available" ->
      fst answer = mkResponse 500 (error_json msg))
  /\ (smtp notice = Some "Book is not available" ->
      fst answer = mkResponse 400 (error_json "Book is not available")).
Proof.
  intros K Hin Ha Tz Hkey Hne Hre due loan shown notice answer.
  assert (F : find (has_id (Book.id book)) (books s) = Some book)
    by exact (find_book_unique _ _ (book_ids_distinct _ K) Hin).
  assert (T2 : (userEmail =? "")%string = false) by now apply String.eqb_neq.
  pose proof (addBorrow_raw_available z now1 now2 _ userEmail _ _ F Ha) as E1.
  assert (E : answer =
              (match smtp notice with
               | None => mkResponse 200
                           (borrowed_json "Book borrowed successfully"
                                          (mkRun 1 (Borrow.id loan)) shown)
               | Some msg => if (msg =? "Book is not available")%string
                             then mkResponse 400 (error_json msg)
                             else mkResponse 500 (error_json msg)
               end,
               snd (addBorrow_raw z now1 now2 (Row (Book.id book)) (Some userEmail) s))).
  { subst answer. unfold post_borrow_raw, try_catch, text_field. cbn [is_truthy as_string as_text].
    rewrite Tz, T2, Hre, Hkey. cbn [negb orb].
    unfold getBookById_raw at 1.
    rewrite (bind_ok _ _ _ _ _ (getBookById_eq _ s)), F.
    rewrite (bind_ok _ _ _ _ _ E1), E1.
    unfold bind, sendBorrowEmail, sendMail. fold shown. fold notice.
    destruct (smtp notice) as [msg|]; [|reflexivity].
    unfold throw, is_unavailable. simpl message.
    now destruct (msg =? "Book is not available")%string. }
  assert (S' : snd answer
               = snd (addBorrow_raw z now1 now2 (Row (Book.id book)) (Some userEmail) s))
    by now rewrite E.
  rewrite S', E1. cbn [snd books borrows].
  split; [reflexivity|]. split.
  { intros l Hl. pose proof (borrow_ids_bounded _ K _ Hl). simpl. lia. }
  split; [reflexivity|]. split; [reflexivity|]. split.
  { exists (with_available false book). split.
    - apply in_update_where. exists book. split; [exact Hin|].
      unfold has_id. now rewrite Z.eqb_refl.
    - simpl. auto. }
  split.
  { intros b Hb Hbid. apply in_update_where in Hb. destruct Hb as [x [Hx ->]].
    destruct (has_id (Book.id book) x) eqn:Hx2; [reflexivity|].
    unfold has_id in Hx2. apply Z.eqb_neq in Hx2. contradiction. }
  split.
  { intros b Hb Hbid. apply in_update_where. exists b. split; [exact Hb|].
    unfold has_id. apply Z.eqb_neq in Hbid. now rewrite Hbid. }
  split; [apply setDate_wall_clock|]. split.
  { intros Hoff. assert (Hd : due = now2 + 14 * ms_per_day).
    { pose proof (setDate_wall_clock z now2 14) as W. fold due in W. lia. }
    split; [exact Hd|]. intros ->. simpl. exact Hd. }
  split; [|split].
  - intros Hs. rewrite E, Hs. reflexivity.
  - intros msg Hs Hmsg. rewrite E, Hs. simpl fst.
    apply String.eqb_neq in Hmsg. now rewrite Hmsg.
  - intros Hs. rewrite E, Hs. reflexivity.
Qed.

Lemma borrow_request_commits_witness :
  let z := fixed_zone 3600000 in
  let s := shelf true in
  let book := Book.mk 1 "A" "B" "978-0-13-468599-1" true in
  let due := setDate_zone z 0 14 in
  let loan := Borrow.mk 1 1 "x@y.com" 0 due false in
  let shown := setDate_zone z 0 14 in
  let notice := mkMail BorrowNotice "x@y.com" "A" shown in
  let answer :=
    post_borrow_raw z accept_all 0 0 0 (number_id 1) (text_field "x@y.com") s in
  borrows (snd answer) = borrows s ++ [loan]
  /\ (forall l, In l (borrows s) -> Borrow.id l <> Borrow.id loan)
  /\ Borrow.returned loan = false
  /\ books (snd answer) = update_where (has_id 1) (with_available false) (books s)
  /\ (exists b, In b (books (snd answer)) /\ Book.id b = 1
                /\ Book.available b = false
                /\ Book.title b = "A" /\ Book.author b = "B"
                /\ Book.isbn b = "978-0-13-468599-1")
  /\ (forall b, In b (books (snd answer)) -> Book.id b = 1 ->
      Book.available b = false)
  /\ (forall b, In b (books s) -> Book.id b <> 1 -> In b (books (snd answer)))
  /\ due + offset_local z (0 + offset_utc z 0 + 14 * ms_per_day)
     = 0 + offset_utc z 0 + 14 * ms_per_day
  /\ (offset_local z (0 + offset_utc z 0 + 14 * ms_per_day) = offset_utc z 0 ->
      Borrow.return_date loan = 0 + 14 * ms_per_day
      /\ (0 = 0 ->
          Borrow.return_date loan = Borrow.borrow_date loan + 14 * ms_per_day))
  /\ (accept_all notice = None ->
      fst answer = mkResponse 200
                     (borrowed_json "Book borrowed successfully"
                                    (mkRun 1 (Borrow.id loan)) shown))
  /\ (forall msg, accept_all notice = Some msg -> msg <> "Book is not available" ->
      fst answer = mkResponse 500 (error_json msg))
  /\ (accept_all notice = Some "Book is not available" ->
      fst answer = mkResponse 400 (error_json "Book is not available")).
Proof.
  apply (borrow_request_commits (fixed_zone 3600000) accept_all 0 0 0 (shelf true)
           (Book.mk 1 "A" "B" "978-0-13-468599-1" true) (number_id 1) "x@y.com").
  - apply keys_okb_sound. reflexivity.
  - simpl. left. reflexivity.
  - reflexivity.
  - reflexivity.
  - reflexivity.
  - discriminate.
  - reflexivity.
Defined.

(** ** Returning *)

Lemma post_return_missing (borrowId : Z) (s : db) :
  find (borrow_has_id borrowId) (borrows s) = None ->
  post_return borrowId s
  = (mkResponse 404 (error_json "Borrow record not found"), s).
Proof.
  intros F. unfold post_return, try_catch.
  now rewrite (bind_throw _ _ _ _ _ (markAsReturned_missing _ _ F)).
Qed.

Lemma post_return_found (borrowId : Z) (s : db) (loan : Borrow.t) :
  find (borrow_has_id borrowId) (borrows s) = Some loan ->
  post_return borrowId s
  = (mkResponse 200 (message_json "Book returned successfully"),
     snd (markAsReturned borrowId s)).
Proof.
  intros F. unfold post_return, try_catch.
  rewrite (bind_ok _ _ _ _ _ (markAsReturned_found _ _ _ F)).
  now rewrite (markAsReturned_found _ _ _ F).
Qed.

(** C4: [POST /return/:borrowId] answers 404 exactly when no loan has that
    id.  When the loan exists and is active, the answer is the success
    message and [markAsReturned] returns true; afterwards the loan of that
    id has [returned = true] and its other fields as before, every book the
    loan refers to has [available = true] and its other fields as before,
    and the other loans and books are untouched. *)
Theorem return_loan_spec (borrowId : Z) (s : db) :
  let answer := post_return borrowId s in
  (status (fst answer) = 404 <->
   (forall l, In l (borrows s) -> Borrow.id l <> borrowId))
  /\ (fst answer = mkResponse 404 (error_json "Borrow record not found")
      \/ fst answer = mkResponse 200 (message_json "Book returned successfully"))
  /\ (forall loan,
        keys_ok s -> In loan (borrows s) -> Borrow.id loan = borrowId ->
        Borrow.returned loan = false ->
        fst answer = mkResponse 200 (message_json "Book returned successfully")
        /\ markAsReturned borrowId s = (Ok true, snd answer)
        /\ In (with_returned true loan) (borrows (snd answer))
        /\ (forall l, In l (borrows (snd answer)) -> Borrow.id l = borrowId ->
            l = with_returned true loan)
        /\ (forall b, In b (books s) -> Book.id b = Borrow.book_id loan ->
            In (with_available true b) (books (snd answer)))
        /\ (forall b, In b (books (snd answer)) -> Book.id b = Borrow.book_id loan ->
            Book.available b = true)
        /\ (exists loan', In loan' (borrows (snd answer))
                          /\ Borrow.id loan' = borrowId
                          /\ Borrow.returned loan' = true
                          /\ Borrow.book_id loan' = Borrow.book_id loan
                          /\ Borrow.user_email loan' = Borrow.user_email loan
                          /\ Borrow.borrow_date loan' = Borrow.borrow_date loan
                          /\ Borrow.return_date loan' = Borrow.return_date loan)
        /\ (forall l, In l (borrows (snd answer)) -> Borrow.id l = borrowId ->
            Borrow.returned l = true)
        /\ (forall l, Borrow.id l <> borrowId ->
            (In l (borrows (snd answer)) <-> In l (borrows s)))
        /\ (forall b, In b (books s) -> Book.id b = Borrow.book_id loan ->
            exists b', In b' (books (snd answer))
                       /\ Book.id b' = Book.id b /\ Book.available b' = true
                       /\ Book.title b' = Book.title b
                       /\ Book.author b' = Book.author b
                       /\ Book.isbn b' = Book.isbn b)
        /\ (forall b, Book.id b <> Borrow.book_id loan ->
            (In b (books (snd answer)) <-> In b (books s)))).
Proof.
  intros answer. subst answer.
  destruct (find (borrow_has_id borrowId) (borrows s)) as [found|] eqn:F.
  - rewrite (post_return_found _ _ _ F). simpl fst. simpl snd.
    pose proof (find_borrow_some _ _ _ F) as [Fin Fid].
    split; [|split].
    + simpl. split; [discriminate|]. intros H. exfalso. exact (H found Fin Fid).
    + now right.
    + intros loan K Hin Hid Hret.
      assert (found = loan).
      { apply (same_key_same_borrow s); try assumption. congruence. }
      subst found. rewrite (markAsReturned_found _ _ _ F). cbn [snd borrows books].
      assert (Hloan : In (with_returned true loan)
                         (update_where (borrow_has_id borrowId) (with_returned true)
                                       (borrows s))).
      { apply in_update_where. exists loan. split; [exact Hin|].
        unfold borrow_has_id. rewrite Hid, Z.eqb_refl. reflexivity. }
      assert (Hrows : forall l,
                 In l (update_where (borrow_has_id borrowId) (with_returned true)
                                    (borrows s)) ->
                 Borrow.id l = borrowId -> l = with_returned true loan).
      { intros l Hl Hlid. apply in_update_where in Hl. destruct Hl as [x [Hx ->]].
        destruct (borrow_has_id borrowId x) eqn:Hx2.
        - unfold borrow_has_id in Hx2. apply Z.eqb_eq in Hx2.
          f_equal. apply (same_key_same_borrow s); try assumption. congruence.
        - unfold borrow_has_id in Hx2. apply Z.eqb_neq in Hx2. contradiction. }
      split; [reflexivity|]. split; [reflexivity|]. split; [exact Hloan|].
      split; [exact Hrows|]. split.
      { intros b Hb Hbid. apply in_update_where. exists b. split; [exact Hb|].
        unfold has_id. rewrite Hbid, Z.eqb_refl. reflexivity. }
      split.
      { intros b Hb Hbid. apply in_update_where in Hb. destruct Hb as [x [Hx ->]].
        destruct (has_id (Borrow.book_id loan) x) eqn:Hx2; [reflexivity|].
        unfold has_id in Hx2. apply Z.eqb_neq in Hx2. contradiction. }
      split.
      { exists (with_returned true loan). split; [exact Hloan|].
        simpl. repeat split; auto. }
      split.
      { intros l Hl Hlid. now rewrite (Hrows l Hl Hlid). }
      split.
      { intros l Hlid. rewrite in_update_where. split.
        - intros [x [Hx ->]]. destruct (borrow_has_id borrowId x) eqn:Hx2; [|exact Hx].
          exfalso. apply Hlid. unfold borrow_has_id in Hx2. now apply Z.eqb_eq in Hx2.
        - intros Hl. exists l. split; [exact Hl|].
          unfold borrow_has_id. apply Z.eqb_neq in Hlid. now rewrite Hlid. }
      split.
      { intros b Hb Hbid. exists (with_available true b). split.
        - apply in_update_where. exists b. split; [exact Hb|].
          unfold has_id. rewrite Hbid, Z.eqb_refl. reflexivity.
        - simpl. repeat split; auto. }
      intros b Hbid. rewrite in_update_where. split.
      * intros [x [Hx ->]].
        destruct (has_id (Borrow.book_id loan) x) eqn:Hx2; [|exact Hx].
        exfalso. apply Hbid. unfold has_id in Hx2. now apply Z.eqb_eq in Hx2.
      * intros Hb. exists b. split; [exact Hb|].
        unfold has_id. apply Z.eqb_neq in Hbid. now rewrite Hbid.
  - rewrite (post_return_missing _ _ F). simpl fst.
    split; [|split].
    + simpl. split; [|reflexivity]. intros _. now apply find_borrow_none.
    + now left.
    + intros loan _ Hin Hid _. exfalso.
      exact (proj1 (find_borrow_none _ _) F loan Hin Hid).
Qed.

Lemma return_loan_spec_witness :
  let s := lent true in
  let loan := Borrow.mk 1 1 "x@y.com" 0 (setDate_plus 0 14) false in
  let answer := post_return 1 s in
  fst answer = mkResponse 200 (message_json "Book returned successfully")
  /\ markAsReturned 1 s = (Ok true, snd answer)
  /\ In (with_returned true loan) (borrows (snd answer))
  /\ (forall l, In l (borrows (snd answer)) -> Borrow.id l = 1 ->
      l = with_returned true loan)
  /\ (forall b, In b (books s) -> Book.id b = Borrow.book_id loan ->
      In (with_available true b) (books (snd answer)))
  /\ (forall b, In b (books (snd answer)) -> Book.id b = Borrow.book_id loan ->
      Book.available b = true)
  /\ (exists loan', In loan' (borrows (snd answer))
                    /\ Borrow.id loan' = 1
                    /\ Borrow.returned loan' = true
                    /\ Borrow.book_id loan' = Borrow.book_id loan
                    /\ Borrow.user_email loan' = Borrow.user_email loan
                    /\ Borrow.borrow_date loan' = Borrow.borrow_date loan
                    /\ Borrow.return_date loan' = Borrow.return_date loan)
  /\ (forall l, In l (borrows (snd answer)) -> Borrow.id l = 1 ->
      Borrow.returned l = true)
  /\ (forall l, Borrow.id l <> 1 ->
      (In l (borrows (snd answer)) <-> In l (borrows s)))
  /\ (forall b, In b (books s) -> Book.id b = Borrow.book_id loan ->
      exists b', In b' (books (snd answer))
                 /\ Book.id b' = Book.id b /\ Book.available b' = true
                 /\ Book.title b' = Book.title b
                 /\ Book.author b' = Book.author b
                 /\ Book.isbn b' = Book.isbn b)
  /\ (forall b, Book.id b <> Borrow.book_id loan ->
      (In b (books (snd answer)) <-> In b (books s))).
Proof.
  apply (proj2 (proj2 (return_loan_spec 1 (lent true)))
           (Borrow.mk 1 1 "x@y.com" 0 (setDate_plus 0 14) false)).
  - apply keys_okb_sound. reflexivity.
  - simpl. left. reflexivity.
  - reflexivity.
  - reflexivity.
Defined.

(** C5: returning a loan that is already returned succeeds ([markAsReturned]
    returns true, the route answers 200) and the database afterwards is the
    database before with [available = true] written to the book the loan
    refers to: the loan table, every other book row and the counters are
    untouched, and if that book was already available, or is gone, nothing
    at all has changed. *)
Theorem double_return_noop (s : db) (loan : Borrow.t) :
  keys_ok s -> In loan (borrows s) -> Borrow.returned loan = true ->
  let s' := set_books s (update_where (has_id (Borrow.book_id loan))
                                      (with_available true) (books s)) in
  markAsReturned (Borrow.id loan) s = (Ok true, s')
  /\ post_return (Borrow.id loan) s
     = (mkResponse 200 (message_json "Book returned successfully"), s')
  /\ borrows s' = borrows s
  /\ (forall b, In b (books s) -> Book.id b <> Borrow.book_id loan -> In b (books s'))
  /\ (forall b, In b (books s') -> Book.id b <> Borrow.book_id loan -> In b (books s))
  /\ (forall b, In b (books s') -> Book.id b = Borrow.book_id loan ->
      Book.available b = true)
  /\ ((forall b, In b (books s) -> Book.id b = Borrow.book_id loan ->
       Book.available b = true) -> s' = s).
Proof.
  intros K Hin Hret s'.
  pose proof (find_borrow_unique _ _ (borrow_ids_distinct _ K) Hin) as F.
  assert (Hb : update_where (borrow_has_id (Borrow.id loan)) (with_returned true)
                 (borrows s) = borrows s).
  { apply update_where_none. intros x Hx Hxid.
    unfold borrow_has_id in Hxid. apply Z.eqb_eq in Hxid.
    assert (x = loan) by (apply (same_key_same_borrow s); assumption).
    subst x. destruct loan; simpl in *. now subst. }
  assert (E : markAsReturned (Borrow.id loan) s = (Ok true, s')).
  { rewrite (markAsReturned_found _ _ _ F), Hb. reflexivity. }
  split; [exact E|]. split.
  { rewrite (post_return_found _ _ _ F), E. reflexivity. }
  subst s'. simpl. repeat split.
  - intros b Hb' Hbid. apply in_update_where. exists b. split; [exact Hb'|].
    unfold has_id. apply Z.eqb_neq in Hbid. now rewrite Hbid.
  - intros b Hb' Hbid. apply in_update_where in Hb'. destruct Hb' as [x [Hx ->]].
    destruct (has_id (Borrow.book_id loan) x) eqn:Hx2; [|exact Hx].
    unfold has_id in Hx2. apply Z.eqb_eq in Hx2. simpl in Hbid. contradiction.
  - intros b Hb' Hbid. apply in_update_where in Hb'. destruct Hb' as [x [Hx ->]].
    destruct (has_id (Borrow.book_id loan) x) eqn:Hx2; [reflexivity|].
    unfold has_id in Hx2. apply Z.eqb_neq in Hx2. contradiction.
  - intros Hav. unfold set_books.
    rewrite update_where_none.
    + now destruct s.
    + intros x Hx Hxid. unfold has_id in Hxid. apply Z.eqb_eq in Hxid.
      specialize (Hav x Hx Hxid). destruct x; simpl in *. now subst.
Qed.

Lemma double_return_noop_witness :
  let s := back false in
  let loan := Borrow.mk 1 1 "x@y.com" 0 (setDate_plus 0 14) true in
  let s' := set_books s (update_where (has_id (Borrow.book_id loan))
                                      (with_available true) (books s)) in
  markAsReturned (Borrow.id loan) s = (Ok true, s')
  /\ post_return (Borrow.id loan) s
     = (mkResponse 200 (message_json "Book returned successfully"), s')
  /\ borrows s' = borrows s
  /\ (forall b, In b (books s) -> Book.id b <> Borrow.book_id loan -> In b (books s'))
  /\ (forall b, In b (books s') -> Book.id b <> Borrow.book_id loan -> In b (books s))
  /\ (forall b, In b (books s') -> Book.id b = Borrow.book_id loan ->
      Book.available b = true)
  /\ ((forall b, In b (books s) -> Book.id b = Borrow.book_id loan ->
       Book.available b = true) -> s' = s).
Proof.
  apply (double_return_noop (back false)
           (Borrow.mk 1 1 "x@y.com" 0 (setDate_plus 0 14) true)).
  - apply keys_okb_sound. reflexivity.
  - simpl. left. reflexivity.
  - reflexivity.
Defined.

(** ** The availability flag and the active loans *)

Lemma step_unavailable_backed (o : op) (s : db) :
  keys_ok s -> unavailable_backed s -> unavailable_backed (step o s).
Proof.
  intros K I. destruct o as [t a n | i t a n | i | n1 n2 i e | i]; simpl.
  - (* addBook *)
    destruct (addBook_spec t a n s) as [[_ E] | [_ E]]; rewrite E; simpl; [exact I|].
    intros b Hb Hav. apply in_app_iff in Hb. destruct Hb as [Hb | [<- | []]].
    + exact (I b Hb Hav).
    + discriminate.
  - (* updateBook *)
    destruct (updateBook_state i t a n s) as [E | E]; rewrite E; [exact I|].
    intros b Hb Hav. simpl in Hb. apply in_update_where in Hb.
    destruct Hb as [x [Hx ->]].
    destruct (has_id i x).
    + rewrite fold_assign_available in Hav. rewrite fold_assign_id.
      destruct (I x Hx Hav) as [l Hl]. now exists l.
    + destruct (I x Hx Hav) as [l Hl]. now exists l.
  - (* deleteBook *)
    destruct (deleteBook_spec i s) as [[_ E] | [_ E]]; rewrite E; simpl; [exact I|].
    intros b Hb Hav. apply filter_In in Hb. destruct Hb as [Hb _].
    destruct (I b Hb Hav) as [l Hl]. now exists l.
  - (* addBorrow *)
    destruct (find (has_id i) (books s)) as [book|] eqn:F;
      [|now rewrite (addBorrow_missing _ _ _ _ _ F)].
    destruct (Book.available book) eqn:A;
      [|now rewrite (addBorrow_unavailable _ _ _ _ _ _ F A)].
    rewrite (addBorrow_available _ _ _ _ _ _ F A). simpl.
    intros b Hb Hav. simpl in Hb. apply in_update_where in Hb.
    destruct Hb as [x [Hx ->]].
    destruct (has_id i x) eqn:Hx2.
    + eexists. simpl. split; [apply in_app_iff; right; left; reflexivity|].
      split; [reflexivity|]. simpl. unfold has_id in Hx2. apply Z.eqb_eq in Hx2.
      now symmetry.
    + destruct (I x Hx Hav) as [l [Hl1 Hl2]]. exists l. simpl.
      split; [apply in_app_iff; now left | exact Hl2].
  - (* markAsReturned *)
    destruct (find (borrow_has_id i) (borrows s)) as [loan|] eqn:F;
      [|now rewrite (markAsReturned_missing _ _ F)].
    rewrite (markAsReturned_found _ _ _ F). simpl.
    pose proof (find_borrow_some _ _ _ F) as [Fin Fid].
    intros b Hb Hav. simpl in Hb. apply in_update_where in Hb.
    destruct Hb as [x [Hx ->]].
    destruct (has_id (Borrow.book_id loan) x) eqn:Hx2; [discriminate|].
    destruct (I x Hx Hav) as [l [Hl1 [Hl2 Hl3]]]. exists l. simpl.
    split; [|now split].
    apply in_update_where. exists l. split; [exact Hl1|].
    destruct (borrow_has_id i l) eqn:Hl4; [|reflexivity].
    exfalso. unfold borrow_has_id in Hl4. apply Z.eqb_eq in Hl4.
    assert (l = loan) by (apply (same_key_same_borrow s); try assumption; congruence).
    subst l. unfold has_id in Hx2. apply Z.eqb_neq in Hx2. congruence.
Qed.

(** In every reachable state an unavailable book has an active loan. *)
Lemma reachable_unavailable_backed (s : db) : reachable s -> unavailable_backed s.
Proof.
  intros [fk [ops ->]].
  assert (H : forall s0, keys_ok s0 -> unavailable_backed s0 ->
                         unavailable_backed (run ops s0)).
  { induction ops as [|o ops IH]; intros s0 K I; simpl; [exact I|].
    apply IH; [now apply step_keys_ok | now apply step_unavailable_backed]. }
  apply H; [apply initDB_keys_ok|]. intros b [].
Qed.

(** Without a second return of the same loan, every call keeps the other
    half of the invariant, together with what its proof needs. *)
Lemma step_ledger_ok (o : op) (s : db) :
  first_return o s -> ledger_ok s -> ledger_ok (step o s).
Proof.
  intros Hfirst [K I2 I3 I4].
  constructor; [now apply step_keys_ok| | |];
    destruct o as [t a n | i t a n | i | n1 n2 i e | i]; simpl.
  - (* lent_unavailable, addBook *)
    destruct (addBook_spec t a n s) as [[_ E] | [_ E]]; rewrite E; simpl; [exact I2|].
    intros b Hb [l [Hl [Hr Hid]]]. simpl in *.
    apply in_app_iff in Hb. destruct Hb as [Hb | [<- | []]].
    + apply (I2 b Hb). now exists l.
    + simpl in Hid. specialize (I4 l Hl). lia.
  - (* updateBook *)
    destruct (updateBook_state i t a n s) as [E | E]; rewrite E; [exact I2|].
    intros b Hb [l Hl]. simpl in Hb, Hl. apply in_update_where in Hb.
    destruct Hb as [x [Hx ->]].
    destruct (has_id i x).
    + rewrite fold_assign_available. rewrite fold_assign_id in Hl.
      apply (I2 x Hx). now exists l.
    + apply (I2 x Hx). now exists l.
  - (* deleteBook *)
    destruct (deleteBook_spec i s) as [[_ E] | [_ E]]; rewrite E; simpl; [exact I2|].
    intros b Hb [l Hl]. simpl in Hb, Hl. apply filter_In in Hb. destruct Hb as [Hb _].
    apply (I2 b Hb). now exists l.
  - (* addBorrow *)
    destruct (find (has_id i) (books s)) as [book|] eqn:F;
      [|now rewrite (addBorrow_missing _ _ _ _ _ F)].
    destruct (Book.available book) eqn:A;
      [|now rewrite (addBorrow_unavailable _ _ _ _ _ _ F A)].
    rewrite (addBorrow_available _ _ _ _ _ _ F A). simpl.
    intros b Hb [l [Hl [Hr Hid]]]. simpl in Hb, Hl.
    apply in_update_where in Hb. destruct Hb as [x [Hx ->]].
    destruct (has_id i x) eqn:Hx2; [reflexivity|].
    apply in_app_iff in Hl. destruct Hl as [Hl | [<- | []]].
    + apply (I2 x Hx). now exists l.
    + simpl in Hid. unfold has_id in Hx2. apply Z.eqb_neq in Hx2. congruence.
  - (* markAsReturned *)
    destruct (find (borrow_has_id i) (borrows s)) as [loan|] eqn:F;
      [|now rewrite (markAsReturned_missing _ _ F)].
    rewrite (markAsReturned_found _ _ _ F). simpl.
    pose proof (find_borrow_some _ _ _ F) as [Fin Fid].
    pose proof (Hfirst loan Fin Fid) as Hactive.
    intros b Hb [l' [Hl' [Hr Hid]]]. simpl in Hb, Hl'.
    apply in_update_where in Hl'. destruct Hl' as [l [Hl ->]].
    destruct (borrow_has_id i l) eqn:Hl2; [discriminate|].
    apply in_update_where in Hb. destruct Hb as [x [Hx ->]].
    destruct (has_id (Borrow.book_id loan) x) eqn:Hx2.
    + exfalso. unfold has_id in Hx2. apply Z.eqb_eq in Hx2. simpl in Hid.
      assert (l = loan) by (apply I3; try assumption; congruence).
      subst l. unfold borrow_has_id in Hl2. apply Z.eqb_neq in Hl2. contradiction.
    + apply (I2 x Hx). now exists l.
  - (* one_active_loan, addBook *)
    destruct (addBook_spec t a n s) as [[_ E] | [_ E]]; rewrite E; exact I3.
  - destruct (updateBook_state i t a n s) as [E | E]; rewrite E; exact I3.
  - destruct (deleteBook_spec i s) as [[_ E] | [_ E]]; rewrite E; exact I3.
  - destruct (find (has_id i) (books s)) as [book|] eqn:F;
      [|now rewrite (addBorrow_missing _ _ _ _ _ F)].
    destruct (Book.available book) eqn:A;
      [|now rewrite (addBorrow_unavailable _ _ _ _ _ _ F A)].
    rewrite (addBorrow_available _ _ _ _ _ _ F A).
    pose proof (find_book_some _ _ _ F) as [Fin Fid].
    assert (Hnone : forall l, In l (borrows s) -> Borrow.returned l = false ->
                              Borrow.book_id l <> i).
    { intros l Hl Hr Hid.
      assert (Book.available book = false); [|congruence].
      apply (I2 book Fin). exists l. repeat split; congruence. }
    intros l1 l2 H1 H2 R1 R2 Hid. simpl in H1, H2.
    apply in_app_iff in H1. apply in_app_iff in H2.
    destruct H1 as [H1 | [<- | []]]; destruct H2 as [H2 | [<- | []]].
    + now apply I3.
    + exfalso. exact (Hnone l1 H1 R1 Hid).
    + exfalso. apply (Hnone l2 H2 R2). now symmetry.
    + reflexivity.
  - destruct (find (borrow_has_id i) (borrows s)) as [loan|] eqn:F;
      [|now rewrite (markAsReturned_missing _ _ F)].
    rewrite (markAsReturned_found _ _ _ F).
    intros l1' l2' H1 H2 R1 R2 Hid. simpl in H1, H2.
    apply in_update_where in H1. destruct H1 as [l1 [H1 ->]].
    apply in_update_where in H2. destruct H2 as [l2 [H2 ->]].
    destruct (borrow_has_id i l1); [discriminate|].
    destruct (borrow_has_id i l2); [discriminate|].
    now apply I3.
  - (* refs_bounded, addBook *)
    destruct (addBook_spec t a n s) as [[_ E] | [_ E]]; rewrite E; [exact I4|].
    intros l Hl. simpl in *. specialize (I4 l Hl). lia.
  - destruct (updateBook_state i t a n s) as [E | E]; rewrite E; exact I4.
  - destruct (deleteBook_spec i s) as [[_ E] | [_ E]]; rewrite E; exact I4.
  - destruct (find (has_id i) (books s)) as [book|] eqn:F;
      [|now rewrite (addBorrow_missing _ _ _ _ _ F)].
    destruct (Book.available book) eqn:A;
      [|now rewrite (addBorrow_unavailable _ _ _ _ _ _ F A)].
    rewrite (addBorrow_available _ _ _ _ _ _ F A).
    pose proof (find_book_some _ _ _ F) as [Fin Fid].
    intros l Hl. simpl in *. apply in_app_iff in Hl. destruct Hl as [Hl | [<- | []]].
    + now apply I4.
    + simpl. pose proof (book_ids_bounded _ K _ Fin). lia.
  - destruct (find (borrow_has_id i) (borrows s)) as [loan|] eqn:F;
      [|now rewrite (markAsReturned_missing _ _ F)].
    rewrite (markAsReturned_found _ _ _ F).
    intros l' Hl'. simpl in *. apply in_update_where in Hl'.
    destruct Hl' as [l [Hl ->]]. specialize (I4 l Hl).
    now destruct (borrow_has_id i l).
Qed.

Lemma initDB_ledger_ok (fk : bool) : ledger_ok (initDB fk).
Proof.
  constructor; [apply initDB_keys_ok | | |].
  - intros b [].
  - intros l1 l2 [].
  - intros l [].
Qed.

(** As long as no loan is returned twice, the availability invariant holds
    after every call: the second return is the only way to lose it. *)
Lemma availability_without_double_return (fk : bool) (ops : list op) :
  no_double_return ops (initDB fk) -> availability_invariant (run ops (initDB fk)).
Proof.
  intros H.
  assert (L : forall s, ledger_ok s -> no_double_return ops s -> ledger_ok (run ops s)).
  { clear H. induction ops as [|o ops IH]; intros s0 L0 N; simpl; [exact L0|].
    destruct N as [N1 N2]. apply IH; [now apply step_ledger_ok | exact N2]. }
  specialize (L _ (initDB_ledger_ok fk) H).
  intros book Hin. split.
  - apply reachable_unavailable_backed; [|exact Hin]. now exists fk, ops.
  - apply (ledger_lent _ L book Hin).
Qed.

(** C1: the other half is lost when a loan is returned twice.  Add a book,
    borrow it (loan 1), return loan 1, borrow the book again (loan 2), and
    return loan 1 once more: [markAsReturned] does not look at the
    [returned] flag of the loan, writes [available = true] to the book, and
    leaves a reachable state in which the book is available while loan 2 on
    it is still active. *)
Theorem double_return_breaks_availability (fk : bool) :
  let s := run [MarkAsReturned 1] (lent_again fk) in
  reachable s
  /\ In (Book.mk 1 "A" "B" "978-0-13-468599-1" true) (books s)
  /\ In (Borrow.mk 2 1 "z@y.com" 5 (setDate_plus 5 14) false) (borrows s)
  /\ ~ availability_invariant s.
Proof.
  intros s. split; [|split; [|split]].
  - exists fk, [AddBook "A" "B" "978-0-13-468599-1"; AddBorrow 0 0 1 "x@y.com";
                MarkAsReturned 1; AddBorrow 5 5 1 "z@y.com"; MarkAsReturned 1].
    reflexivity.
  - destruct fk; left; reflexivity.
  - destruct fk; right; left; reflexivity.
  - intros I.
    assert (Hin : In (Book.mk 1 "A" "B" "978-0-13-468599-1" true) (books s))
      by (destruct fk; left; reflexivity).
    destruct (I _ Hin) as [_ H].
    assert (Hf : Book.available (Book.mk 1 "A" "B" "978-0-13-468599-1" true) = false).
    { apply H. exists (Borrow.mk 2 1 "z@y.com" 5 (setDate_plus 5 14) false).
      split; [destruct fk; right; left; reflexivity | split; reflexivity]. }
    discriminate.
Qed.

(** ** The notification queries *)

Lemma in_join_books (cond : Borrow.t -> bool) (s : db) (row : PendingRow) :
  In row (join_books cond s) <->
  exists loan book,
    In loan (borrows s) /\ cond loan = true
    /\ In book (books s) /\ Book.id book = Borrow.book_id loan
    /\ row = mkRow loan (Book.title book) (Book.author book).
Proof.
  unfold join_books. rewrite in_flat_map. split.
  - intros [loan [Hl Hrow]]. apply filter_In in Hl. destruct Hl as [Hl Hc].
    apply in_map_iff in Hrow. destruct Hrow as [book [<- Hb]].
    apply filter_In in Hb. destruct Hb as [Hb Hid].
    exists loan, book. repeat split; try assumption. now apply Z.eqb_eq in Hid.
  - intros [loan [book [Hl [Hc [Hb [Hid ->]]]]]].
    exists loan. split; [apply filter_In; now split|].
    apply in_map_iff. exists book. split; [reflexivity|].
    apply filter_In. split; [exact Hb | now apply Z.eqb_eq].
Qed.

(** Every row of either query carries a loan of the ledger and the title and
    author of a book that is in the catalog under the loan's [book_id]. *)
Lemma join_books_book_exists (cond : Borrow.t -> bool) (s : db) (row : PendingRow) :
  In row (join_books cond s) ->
  In (borrow row) (borrows s)
  /\ exists book, In book (books s) /\ Book.id book = Borrow.book_id (borrow row)
                  /\ title row = Book.title book /\ author row = Book.author book.
Proof.
  intros H. apply in_join_books in H.
  destruct H as [loan [book [Hl [_ [Hb [Hid ->]]]]]]. simpl.
  split; [exact Hl|]. exists book. repeat split; assumption.
Qed.

Lemma ms_per_day_pos : 0 < ms_per_day.
Proof. reflexivity. Qed.

(** A timestamp on an earlier calendar day is in the past, and a timestamp
    at least a day old is on an earlier calendar day; in between, a timestamp
    of today that has passed is not on an earlier day. *)
Lemma earlier_day_is_past (now t : Z) : utc_day t < utc_day now -> t < now.
Proof.
  unfold utc_day. intros H.
  destruct (Z_lt_ge_dec t now) as [L | G]; [exact L|].
  assert (now / ms_per_day <= t / ms_per_day)
    by (apply Z.div_le_mono; [apply ms_per_day_pos | lia]).
  lia.
Qed.

Lemma day_old_is_earlier_day (now t : Z) : t + ms_per_day <= now -> utc_day t < utc_day now.
Proof.
  unfold utc_day. intros H.
  assert (E : (t + ms_per_day) / ms_per_day = t / ms_per_day + 1).
  { replace (t + ms_per_day) with (t + 1 * ms_per_day) by lia.
    apply Z.div_add. pose proof ms_per_day_pos. lia. }
  assert ((t + ms_per_day) / ms_per_day <= now / ms_per_day)
    by (apply Z.div_le_mono; [apply ms_per_day_pos | lia]).
  lia.
Qed.

Lemma returned_after_markAsReturned (s : db) (loan l : Borrow.t) :
  In loan (borrows s) ->
  In l (borrows (snd (markAsReturned (Borrow.id loan) s))) ->
  Borrow.id l = Borrow.id loan -> Borrow.returned l = true.
Proof.
  intros Hin Hl Hid.
  destruct (find (borrow_has_id (Borrow.id loan)) (borrows s)) as [found|] eqn:F.
  - rewrite (markAsReturned_found _ _ _ F) in Hl. simpl in Hl.
    apply in_update_where in Hl. destruct Hl as [x [Hx ->]].
    destruct (borrow_has_id (Borrow.id loan) x) eqn:E; [reflexivity|].
    unfold borrow_has_id in E. apply Z.eqb_neq in E. contradiction.
  - exfalso. exact (proj1 (find_borrow_none _ _) F loan Hin eq_refl).
Qed.

(** C7, as stated, fails: at 10:00 on day 14 the loan due at 02:00 that day
    is active and its return date is in the past, but it is not listed,
    because the query compares the return date with the date of today. *)
Lemma overdue_same_day_not_listed :
  let now := 14 * ms_per_day + 36000000 in
  let loan := Borrow.mk 1 1 "x@y.com" 7200000 (14 * ms_per_day + 7200000) false in
  In loan (borrows lent_at_two)
  /\ Borrow.returned loan = false
  /\ Borrow.return_date loan < now
  /\ getOverdueBooks now lent_at_two = [].
Proof.
  split; [left; reflexivity|]. split; [reflexivity|]. split; reflexivity.
Qed.

(** C7, as amended: [getOverdueBooks()] returns exactly the loans with
    [returned = false] whose book is still in the catalog and whose return
    date falls on a UTC calendar day before today's, each joined with its
    book's title and author.  Such a loan is in the past; a loan at least 24
    hours past its return date is such a loan.  A loan that qualifies is
    listed, and no longer listed, at any time, once it has been returned. *)
Theorem overdue_query_spec (now : Z) (s : db) :
  (forall row,
     In row (getOverdueBooks now s) <->
     exists loan book,
       In loan (borrows s) /\ In book (books s)
       /\ Book.id book = Borrow.book_id loan
       /\ Borrow.returned loan = false
       /\ utc_day (Borrow.return_date loan) < utc_day now
       /\ row = mkRow loan (Book.title book) (Book.author book))
  /\ (forall row, In row (getOverdueBooks now s) ->
        Borrow.return_date (borrow row) < now)
  /\ (forall loan book,
        In loan (borrows s) -> In book (books s) ->
        Book.id book = Borrow.book_id loan ->
        Borrow.returned loan = false ->
        Borrow.return_date loan + ms_per_day <= now
        \/ utc_day (Borrow.return_date loan) < utc_day now ->
        In (mkRow loan (Book.title book) (Book.author book)) (getOverdueBooks now s)
        /\ (forall now' row,
              In row (getOverdueBooks now' (snd (markAsReturned (Borrow.id loan) s))) ->
              Borrow.id (borrow row) <> Borrow.id loan)).
Proof.
  assert (Char : forall now0 s0 row,
     In row (getOverdueBooks now0 s0) <->
     exists loan book,
       In loan (borrows s0) /\ In book (books s0)
       /\ Book.id book = Borrow.book_id loan
       /\ Borrow.returned loan = false
       /\ utc_day (Borrow.return_date loan) < utc_day now0
       /\ row = mkRow loan (Book.title book) (Book.author book)).
  { intros now0 s0 row. unfold getOverdueBooks. rewrite in_join_books. split.
    - intros [loan [book [Hl [Hc [Hb [Hid Hrow]]]]]].
      apply andb_true_iff in Hc. destruct Hc as [Hr Hd].
      apply negb_true_iff in Hr. unfold sql_lt_date_now in Hd. apply Z.ltb_lt in Hd.
      exists loan, book. repeat split; assumption.
    - intros [loan [book [Hl [Hb [Hid [Hr [Hd Hrow]]]]]]].
      exists loan, book. repeat split; try assumption.
      apply andb_true_iff. split; [now apply negb_true_iff|].
      unfold sql_lt_date_now. now apply Z.ltb_lt. }
  split; [apply Char|]. split.
  - intros row Hrow. apply Char in Hrow.
    destruct Hrow as [loan [book [_ [_ [_ [_ [Hd ->]]]]]]]. simpl.
    now apply earlier_day_is_past.
  - intros loan book Hl Hb Hid Hr Hd. split.
    + apply Char. exists loan, book. repeat split; try assumption.
      destruct Hd as [Hd | Hd]; [now apply day_old_is_earlier_day | exact Hd].
    + intros now' row Hrow Heq. apply Char in Hrow.
      destruct Hrow as [l [b [Hl' [_ [_ [Hr' [_ ->]]]]]]]. simpl in Heq.
      pose proof (returned_after_markAsReturned s loan l Hl Hl' Heq). congruence.
Qed.

Lemma overdue_query_spec_witness :
  let now := 15 * ms_per_day in
  let loan := Borrow.mk 1 1 "x@y.com" 7200000 (14 * ms_per_day + 7200000) false in
  In (mkRow loan "A" "B") (getOverdueBooks now lent_at_two)
  /\ (forall now' row,
        In row (getOverdueBooks now' (snd (markAsReturned (Borrow.id loan) lent_at_two))) ->
        Borrow.id (borrow row) <> Borrow.id loan).
Proof.
  apply (proj2 (proj2 (overdue_query_spec (15 * ms_per_day) lent_at_two))
           (Borrow.mk 1 1 "x@y.com" 7200000 (14 * ms_per_day + 7200000) false)
           (Book.mk 1 "A" "B" "978-0-13-468599-1" false)).
  - left. reflexivity.
  - left. reflexivity.
  - reflexivity.
  - reflexivity.
  - right. vm_compute. reflexivity.
Defined.

(** ** The due-soon job *)

Lemma ceil_div_pos (a b : Z) : 0 < b -> (0 < ceil_div a b <-> 0 < a).
Proof.
  intros Hb. unfold ceil_div. split; intros H.
  - destruct (Z_lt_ge_dec 0 a) as [L | G]; [exact L|].
    assert (0 <= (- a) / b) by (apply Z.div_pos; lia). lia.
  - assert ((- a) / b < 0) by (apply Z.div_lt_upper_bound; lia). lia.
Qed.

Lemma ceil_div_le (a b n : Z) : 0 < b -> (ceil_div a b <= n <-> a <= n * b).
Proof.
  intros Hb. unfold ceil_div. split; intros H.
  - assert (- n <= (- a) / b) by lia.
    assert (b * ((- a) / b) <= - a) by (apply Z.mul_div_le; lia).
    nia.
  - assert (- n <= (- a) / b); [|lia].
    apply Z.div_le_lower_bound; [lia|]. nia.
Qed.

(** The test of the job in terms of instants: the loan falls due after
    [today] and at most 48 hours after it. *)
Lemma due_soon_iff (today : Z) (row : PendingRow) :
  due_soon today row = true <->
  today < Borrow.return_date (borrow row) <= today + 2 * ms_per_day.
Proof.
  unfold due_soon, daysUntilDue. rewrite andb_true_iff, Z.leb_le, Z.ltb_lt.
  rewrite (ceil_div_pos _ _ ms_per_day_pos), (ceil_div_le _ _ _ ms_per_day_pos).
  lia.
Qed.

Lemma reminder_loop_sound (smtp : transport) (today : Z) (rows : list PendingRow)
    (m : mail) :
  In m (handed (reminder_loop smtp today rows)) ->
  exists row, In row rows /\ due_soon today row = true /\ m = reminder_of row.
Proof.
  induction rows as [|row rest IH]; simpl; [intros []|].
  destruct (due_soon today row) eqn:D.
  - destruct (smtp (reminder_of row)); simpl.
    + intros [<- | []]. exists row. auto.
    + intros [<- | H]; [exists row; auto|].
      destruct (IH H) as [r [Hr1 Hr2]]. exists r. auto.
  - intros H. destruct (IH H) as [r [Hr1 Hr2]]. exists r. auto.
Qed.

Lemma reminder_loop_reaches (smtp : transport) (today : Z)
    (before after : list PendingRow) (row : PendingRow) :
  (forall r, In r before -> due_soon today r = true -> smtp (reminder_of r) = None) ->
  due_soon today row = true ->
  In (reminder_of row) (handed (reminder_loop smtp today (before ++ row :: after))).
Proof.
  induction before as [|r before IH]; simpl; intros Hacc D.
  - rewrite D. destruct (smtp (reminder_of row)); simpl; now left.
  - destruct (due_soon today r) eqn:Dr.
    + rewrite (Hacc r (or_introl eq_refl) Dr). simpl. right.
      apply IH; [|exact D]. intros x Hx. apply Hacc. now right.
    + apply IH; [|exact D]. intros x Hx. apply Hacc. now right.
Qed.

Lemma reminder_loop_all_accepted (smtp : transport) (today : Z) (rows : list PendingRow) :
  (forall r, In r rows -> due_soon today r = true -> smtp (reminder_of r) = None) ->
  reminder_loop smtp today rows
  = mkLog (map reminder_of (filter (due_soon today) rows)) None.
Proof.
  induction rows as [|r rows IH]; simpl; intros Hacc; [reflexivity|].
  assert (IH' := IH (fun x Hx => Hacc x (or_intror Hx))).
  destruct (due_soon today r) eqn:Dr.
  - rewrite (Hacc r (or_introl eq_refl) Dr), IH'. reflexivity.
  - exact IH'.
Qed.

(** After a rejected send, nothing more is handed to the transport. *)
Lemma reminder_loop_stops (smtp : transport) (today : Z)
    (before after : list PendingRow) (row : PendingRow) (msg : string) :
  (forall r, In r before -> due_soon today r = true -> smtp (reminder_of r) = None) ->
  due_soon today row = true -> smtp (reminder_of row) = Some msg ->
  reminder_loop smtp today (before ++ row :: after)
  = mkLog (map reminder_of (filter (due_soon today) before) ++ [reminder_of row])
          (Some (MailError msg)).
Proof.
  induction before as [|r before IH]; simpl; intros Hacc D R.
  - now rewrite D, R.
  - assert (IH' := IH (fun x Hx => Hacc x (or_intror Hx)) D R).
    destruct (due_soon today r) eqn:Dr.
    + rewrite (Hacc r (or_introl eq_refl) Dr), IH'. reflexivity.
    + exact IH'.
Qed.

(** C6, as stated, fails: on day 13 both loans are pending and due in one
    day, but the second reader gets no reminder, because the send to the
    first reader is rejected and the job stops there. *)
Lemma reminder_skipped_after_rejection :
  let now := 13 * ms_per_day in
  let pending := getPendingReturns now two_lent in
  let second := mkRow (Borrow.mk 2 2 "z@y.com" 0 (14 * ms_per_day) false) "C" "D" in
  In second pending
  /\ daysUntilDue now (Borrow.return_date (borrow second)) = 1
  /\ reject_x (reminder_of second) = None
  /\ ~ In (reminder_of second) (handed (reminder_job reject_x now now two_lent)).
Proof.
  split; [right; left; reflexivity|]. split; [reflexivity|]. split; [reflexivity|].
  vm_compute. intros [H | []]. discriminate.
Qed.

(** C6, as amended: the 9 AM job hands reminders to the transport only for
    pending loans with [0 < daysUntilDue <= 2] (never for one due in 0 or
    fewer days), and it does so for every such loan that no rejected send
    precedes in the run: when the transport accepts them all, the reminders
    handed over are exactly those of the pending loans with
    [0 < daysUntilDue <= 2], in order; a rejected send ends the run, the
    error is logged and the loans after it get nothing. *)
Theorem reminder_job_spec (smtp : transport) (now today : Z) (s : db) :
  let pending := getPendingReturns now s in
  let log := reminder_job smtp now today s in
  let days row := daysUntilDue today (Borrow.return_date (borrow row)) in
  (forall m, In m (handed log) ->
     exists row, In row pending /\ m = reminder_of row /\ 0 < days row <= 2)
  /\ (forall before row after,
        pending = before ++ row :: after ->
        (forall r, In r before -> 0 < days r <= 2 -> smtp (reminder_of r) = None) ->
        (0 < days row <= 2 -> In (reminder_of row) (handed log))
        /\ (forall msg, 0 < days row <= 2 -> smtp (reminder_of row) = Some msg ->
            log = mkLog (map reminder_of (filter (due_soon today) before)
                         ++ [reminder_of row])
                        (Some (MailError msg))))
  /\ ((forall r, In r pending -> 0 < days r <= 2 -> smtp (reminder_of r) = None) ->
      log = mkLog (map reminder_of (filter (due_soon today) pending)) None)
  /\ (forall row, due_soon today row = true <-> 0 < days row <= 2).
Proof.
  intros pending log days.
  assert (D : forall row, due_soon today row = true <-> 0 < days row <= 2).
  { intros row. unfold due_soon, days. rewrite andb_true_iff, Z.leb_le, Z.ltb_lt. lia. }
  split; [|split; [|split]].
  - intros m Hm. apply reminder_loop_sound in Hm.
    destruct Hm as [row [Hr [Hd ->]]]. exists row. split; [exact Hr|].
    split; [reflexivity | now apply D].
  - intros before row after E Hacc.
    assert (Hacc' : forall r, In r before -> due_soon today r = true ->
                              smtp (reminder_of r) = None).
    { intros r Hr Hd. apply Hacc; [exact Hr | now apply D]. }
    split.
    + intros Hd. subst log. unfold reminder_job. fold pending. rewrite E.
      apply reminder_loop_reaches; [exact Hacc' | now apply D].
    + intros msg Hd R. subst log. unfold reminder_job. fold pending. rewrite E.
      apply reminder_loop_stops; [exact Hacc' | now apply D | exact R].
  - intros Hacc. subst log. unfold reminder_job. fold pending.
    apply reminder_loop_all_accepted. intros r Hr Hd. apply Hacc; [exact Hr | now apply D].
  - exact D.
Qed.

Lemma reminder_job_spec_witness :
  let now := 13 * ms_per_day in
  reminder_job accept_all now now two_lent
  = mkLog (map reminder_of (filter (due_soon now) (getPendingReturns now two_lent))) None.
Proof.
  apply (proj1 (proj2 (proj2 (reminder_job_spec accept_all (13 * ms_per_day)
                                (13 * ms_per_day) two_lent)))).
  intros r _ _. reflexivity.
Defined.

(** ** Updating a book *)

Lemma fold_assign_collect (title author isbn : option string) (book : Book.t) :
  fold_left assign (collect_updates title author isbn) book
  = updated title author isbn book.
Proof.
  unfold collect_updates, updated.
  destruct (truthy title), (truthy author), (truthy isbn), book; reflexivity.
Qed.

Lemma collect_updates_nonempty (title author isbn : option string) :
  truthy title || truthy author || truthy isbn = true ->
  collect_updates title author isbn <> [].
Proof.
  unfold collect_updates.
  destruct (truthy title), (truthy author), (truthy isbn); simpl;
    intros H; discriminate.
Qed.

Lemma isbn_clash_iff (i : Z) (title author isbn : option string) (s : db) :
  isbn_clash i (collect_updates title author isbn) s = true <->
  truthy isbn = true
  /\ exists other, In other (books s) /\ Book.id other <> i
                   /\ Book.isbn other = value isbn.
Proof.
  unfold isbn_clash, collect_updates.
  assert (E : forall v,
             existsb (fun b => negb (has_id i b) && (Book.isbn b =? v)%string) (books s)
             = true <->
             exists other, In other (books s) /\ Book.id other <> i
                           /\ Book.isbn other = v).
  { intros v. rewrite existsb_exists. split.
    - intros [b [Hb Hc]]. apply andb_true_iff in Hc. destruct Hc as [Hc1 Hc2].
      exists b. split; [exact Hb|]. split.
      + apply negb_true_iff in Hc1. unfold has_id in Hc1. now apply Z.eqb_neq in Hc1.
      + now apply String.eqb_eq.
    - intros [b [Hb [Hc1 Hc2]]]. exists b. split; [exact Hb|].
      apply andb_true_iff. split.
      + apply negb_true_iff. unfold has_id. now apply Z.eqb_neq.
      + now apply String.eqb_eq. }
  destruct (truthy title), (truthy author), (truthy isbn); simpl;
    rewrite ?orb_false_r; try rewrite E;
    (split; [intros H; try discriminate; now split | intros [H1 H2]; try discriminate; exact H2]).
Qed.

(** C8, as stated, fails: book 2 exists and the partial gives an isbn, but
    the isbn is the one of book 1; the UNIQUE constraint makes the UPDATE
    throw, the route answers 500 and the isbn of book 2 is not changed. *)
Lemma update_to_taken_isbn_fails :
  let answer := put_book 2 None None (Some "978-0-13-468599-1") two_books in
  In (Book.mk 2 "C" "D" "978-0-13-468599-2" true) (books two_books)
  /\ fst answer
     = mkResponse 500 (error_json "UNIQUE constraint failed: books.isbn")
  /\ snd answer = two_books.
Proof.
  split; [right; left; reflexivity|]. split; reflexivity.
Qed.

(** C8, as amended: for every existing book and every partial update with at
    least one non-empty field whose isbn, if given, is not the isbn of
    another book, [PUT /books/:id] answers with the updated row: the fields
    given and non-empty are replaced, the other fields of the row, its
    [available] flag included, every other book row, every loan row and the
    counters are unchanged.  An isbn held by another book makes the update
    fail with 500 and changes nothing.  With at least one non-empty field
    the answer is 404 if no book has that id, and a partial with no
    non-empty field is answered 400 without touching the database. *)
Theorem update_book_frame (bookId : Z) (title author isbn : option string) (s : db) :
  let answer := put_book bookId title author isbn s in
  let given := truthy title || truthy author || truthy isbn in
  (forall book,
     keys_ok s -> In book (books s) -> Book.id book = bookId -> given = true ->
     (truthy isbn = true ->
      forall other, In other (books s) -> Book.id other <> bookId ->
                    Book.isbn other <> value isbn) ->
     let book' := updated title author isbn book in
     fst answer = mkResponse 200 (updated_json "Book updated successfully" book')
     /\ updateBook bookId title author isbn s = (Ok (Some book'), snd answer)
     /\ Book.available book' = Book.available book
     /\ In book' (books (snd answer))
     /\ (forall b, In b (books (snd answer)) -> Book.id b = bookId -> b = book')
     /\ (forall b, Book.id b <> bookId ->
         (In b (books (snd answer)) <-> In b (books s)))
     /\ snd answer = set_books s (books (snd answer)))
  /\ (forall book other,
        In book (books s) -> Book.id book = bookId -> truthy isbn = true ->
        In other (books s) -> Book.id other <> bookId ->
        Book.isbn other = value isbn ->
        answer = (mkResponse 500 (error_json "UNIQUE constraint failed: books.isbn"), s))
  /\ (given = true -> (forall b, In b (books s) -> Book.id b <> bookId) ->
      answer = (mkResponse 404 (error_json "Book not found"), s))
  /\ (given = false ->
      answer = (mkResponse 400 (error_json "At least one field to update is required"), s)).
Proof.
  intros answer given. subst answer.
  assert (G : given = true ->
              negb (truthy title) && negb (truthy author) && negb (truthy isbn) = false).
  { subst given. destruct (truthy title), (truthy author), (truthy isbn);
      simpl; intros H; congruence. }
  split; [|split; [|split]].
  - intros book K Hin Hid Hg Hfree book'.
    assert (F : find (has_id bookId) (books s) = Some book).
    { rewrite <- Hid. apply find_book_unique; [apply (book_ids_distinct _ K) | exact Hin]. }
    assert (C : isbn_clash bookId (collect_updates title author isbn) s = false).
    { destruct (isbn_clash bookId (collect_updates title author isbn) s) eqn:C;
        [|reflexivity].
      apply isbn_clash_iff in C. destruct C as [Ht [other [Ho [Hoid Hoisbn]]]].
      exfalso. exact (Hfree Ht other Ho Hoid Hoisbn). }
    pose proof (updateBook_found _ _ _ _ _ _ F (collect_updates_nonempty _ _ _ Hg) C) as E.
    rewrite fold_assign_collect in E. fold book' in E.
    unfold put_book, try_catch. rewrite (G Hg).
    rewrite (bind_ok _ _ _ _ _ E). simpl fst. simpl snd.
    split; [reflexivity|]. split; [exact E|]. split; [reflexivity|].
    simpl. repeat split.
    + apply in_update_where. exists book. split; [exact Hin|].
      unfold has_id. rewrite Hid, Z.eqb_refl. now rewrite fold_assign_collect.
    + intros b Hb Hbid. apply in_update_where in Hb. destruct Hb as [x [Hx ->]].
      destruct (has_id bookId x) eqn:Hx2.
      * unfold has_id in Hx2. apply Z.eqb_eq in Hx2.
        assert (x = book) by (apply (same_key_same_book s); try assumption; congruence).
        subst x. now rewrite fold_assign_collect.
      * unfold has_id in Hx2. apply Z.eqb_neq in Hx2. contradiction.
    + intros Hb. apply in_update_where in Hb. destruct Hb as [x [Hx ->]].
      destruct (has_id bookId x) eqn:Hx2; [|exact Hx].
      exfalso. apply H. rewrite fold_assign_id. unfold has_id in Hx2.
      now apply Z.eqb_eq in Hx2.
    + intros Hb. apply in_update_where. exists b. split; [exact Hb|].
      unfold has_id. apply Z.eqb_neq in H. now rewrite H.
  - intros book other Hin Hid Ht Ho Hoid Hoisbn.
    assert (F : exists found, find (has_id bookId) (books s) = Some found).
    { destruct (find (has_id bookId) (books s)) as [found|] eqn:F; [now exists found|].
      exfalso. exact (proj1 (find_book_none _ _) F book Hin Hid). }
    destruct F as [found F].
    assert (C : isbn_clash bookId (collect_updates title author isbn) s = true).
    { apply isbn_clash_iff. split; [exact Ht|]. exists other. auto. }
    unfold put_book, try_catch. rewrite G by (subst given; rewrite Ht; apply orb_true_r).
    now rewrite (bind_throw _ _ _ _ _ (updateBook_clash _ _ _ _ _ _ F C)).
  - intros Hg Hnone.
    unfold put_book, try_catch. rewrite (G Hg).
    assert (F : find (has_id bookId) (books s) = None) by now apply find_book_none.
    now rewrite (bind_ok _ _ _ _ _ (updateBook_missing _ _ _ _ _ F)).
  - intros Hg. unfold put_book, try_catch.
    subst given. destruct (truthy title), (truthy author), (truthy isbn);
      simpl in Hg; try discriminate. reflexivity.
Qed.

Lemma update_book_frame_witness :
  let answer := put_book 2 (Some "E") None (Some "978-0-13-468599-3") two_books in
  let book' := Book.mk 2 "E" "D" "978-0-13-468599-3" true in
  fst answer = mkResponse 200 (updated_json "Book updated successfully" book')
  /\ updateBook 2 (Some "E") None (Some "978-0-13-468599-3") two_books
     = (Ok (Some book'), snd answer)
  /\ Book.available book' = true
  /\ In book' (books (snd answer))
  /\ (forall b, In b (books (snd answer)) -> Book.id b = 2 -> b = book')
  /\ (forall b, Book.id b <> 2 ->
      (In b (books (snd answer)) <-> In b (books two_books)))
  /\ snd answer = set_books two_books (books (snd answer)).
Proof.
  apply (proj1 (update_book_frame 2 (Some "E") None (Some "978-0-13-468599-3") two_books)
           (Book.mk 2 "C" "D" "978-0-13-468599-2" true)).
  - apply keys_okb_sound. reflexivity.
  - right. left. reflexivity.
  - reflexivity.
  - reflexivity.
  - intros _ other [<- | [<- | []]] Hid; simpl in *; [discriminate | lia].
Defined.

(** ** How the calls move the counters and the loans *)

Lemma step_seq_books (o : op) (s : db) : seq_books s <= seq_books (step o s).
Proof.
  destruct o as [t a n | i t a n | i | n1 n2 i e | i]; simpl.
  - destruct (addBook_spec t a n s) as [[_ E] | [_ E]]; rewrite E; simpl; lia.
  - destruct (updateBook_state i t a n s) as [E | E]; rewrite E; simpl; lia.
  - destruct (deleteBook_spec i s) as [[_ E] | [_ E]]; rewrite E; simpl; lia.
  - destruct (find (has_id i) (books s)) as [book|] eqn:F.
    + destruct (Book.available book) eqn:A.
      * rewrite (addBorrow_available _ _ _ _ _ _ F A). simpl. lia.
      * rewrite (addBorrow_unavailable _ _ _ _ _ _ F A). simpl. lia.
    + rewrite (addBorrow_missing _ _ _ _ _ F). simpl. lia.
  - destruct (find (borrow_has_id i) (borrows s)) as [loan|] eqn:F.
    + rewrite (markAsReturned_found _ _ _ F). simpl. lia.
    + rewrite (markAsReturned_missing _ _ F). simpl. lia.
Qed.

Lemma step_borrows (o : op) (s : db) (l : Borrow.t) :
  In l (borrows (step o s)) ->
  (exists l0, In l0 (borrows s) /\ Borrow.id l0 = Borrow.id l
              /\ Borrow.book_id l0 = Borrow.book_id l)
  \/ Borrow.id l = seq_borrows s + 1.
Proof.
  destruct o as [t a n | i t a n | i | n1 n2 i e | i]; simpl.
  - destruct (addBook_spec t a n s) as [[_ E] | [_ E]]; rewrite E; simpl;
      intros H; left; now exists l.
  - destruct (updateBook_state i t a n s) as [E | E]; rewrite E; simpl;
      intros H; left; now exists l.
  - destruct (deleteBook_spec i s) as [[_ E] | [_ E]]; rewrite E; simpl;
      intros H; left; now exists l.
  - destruct (find (has_id i) (books s)) as [book|] eqn:F.
    + destruct (Book.available book) eqn:A.
      * rewrite (addBorrow_available _ _ _ _ _ _ F A). simpl.
        intros H. apply in_app_iff in H. destruct H as [H | [<- | []]].
        -- left. now exists l.
        -- now right.
      * rewrite (addBorrow_unavailable _ _ _ _ _ _ F A). intros H. left. now exists l.
    + rewrite (addBorrow_missing _ _ _ _ _ F). intros H. left. now exists l.
  - destruct (find (borrow_has_id i) (borrows s)) as [loan|] eqn:F.
    + rewrite (markAsReturned_found _ _ _ F). simpl.
      intros H. apply in_update_where in H. destruct H as [x [Hx ->]].
      left. exists x. split; [exact Hx|]. now destruct (borrow_has_id i x).
    + rewrite (markAsReturned_missing _ _ F). intros H. left. now exists l.
Qed.

Lemma step_seq_borrows (o : op) (s : db) : seq_borrows s <= seq_borrows (step o s).
Proof.
  destruct o as [t a n | i t a n | i | n1 n2 i e | i]; simpl.
  - destruct (addBook_spec t a n s) as [[_ E] | [_ E]]; rewrite E; simpl; lia.
  - destruct (updateBook_state i t a n s) as [E | E]; rewrite E; simpl; lia.
  - destruct (deleteBook_spec i s) as [[_ E] | [_ E]]; rewrite E; simpl; lia.
  - destruct (find (has_id i) (books s)) as [book|] eqn:F.
    + destruct (Book.available book) eqn:A.
      * rewrite (addBorrow_available _ _ _ _ _ _ F A). simpl. lia.
      * rewrite (addBorrow_unavailable _ _ _ _ _ _ F A). simpl. lia.
    + rewrite (addBorrow_missing _ _ _ _ _ F). simpl. lia.
  - destruct (find (borrow_has_id i) (borrows s)) as [loan|] eqn:F.
    + rewrite (markAsReturned_found _ _ _ F). simpl. lia.
    + rewrite (markAsReturned_missing _ _ F). simpl. lia.
Qed.

Lemma overdue_loop_sound (smtp : transport) (rows : list PendingRow) (m : mail) :
  In m (handed (overdue_loop smtp rows)) ->
  exists row, In row rows /\ m = overdue_of row.
Proof.
  induction rows as [|row rest IH]; simpl; [intros []|].
  destruct (smtp (overdue_of row)); simpl.
  - intros [<- | []]. exists row. auto.
  - intros [<- | H]; [exists row; auto|].
    destruct (IH H) as [r [Hr1 Hr2]]. exists r. auto.
Qed.

(** * Further properties *)

(** ** The pattern of the book route *)

Lemma match_rep_eq (cls : ascii -> bool) (lo hi : nat) (re : list ratom) (s : string) :
  match_bounded (RRep cls lo hi :: re) s
  = (match lo with O => match_bounded re s | S _ => false end)
    || match hi, s with
       | S hi', String c s' => cls c && match_bounded (RRep cls (Nat.pred lo) hi' :: re) s'
       | _, _ => false
       end.
Proof. destruct hi; reflexivity. Qed.

Lemma match_rep (cls : ascii -> bool) (re : list ratom) (hi lo : nat) (s : string) :
  match_bounded (RRep cls lo hi :: re) s = true <->
  exists a r, s = (a ++ r)%string
              /\ (lo <= String.length a <= hi)%nat
              /\ all_chars cls a = true
              /\ match_bounded re r = true.
Proof.
  revert lo s. induction hi as [|hi IH]; intros lo s; rewrite match_rep_eq.
  - rewrite orb_false_r. split.
    + destruct lo; [|discriminate]. intros H. exists "", s. repeat split; auto.
    + intros [a [r [-> [[Hlo Hhi] [_ Hr]]]]].
      destruct a; simpl in *; [|lia]. destruct lo; [exact Hr | lia].
  - rewrite orb_true_iff. split.
    + intros [H | H].
      * destruct lo; [|discriminate]. exists "", s. repeat split; simpl; auto; lia.
      * destruct s as [|c s]; [discriminate|].
        apply andb_true_iff in H. destruct H as [Hc H].
        apply IH in H. destruct H as [a [r [-> [[Hlo Hhi] [Hall Hr]]]]].
        exists (String c a), r. simpl. rewrite Hc, Hall. repeat split; auto; lia.
    + intros [a [r [-> [[Hlo Hhi] [Hall Hr]]]]].
      destruct a as [|c a]; simpl in *.
      * left. destruct lo; [exact Hr | lia].
      * right. apply andb_true_iff in Hall. destruct Hall as [Hc Hall].
        rewrite Hc. simpl. apply IH. exists a, r. repeat split; auto; lia.
Qed.

Lemma match_rlit (c : ascii) (re : list ratom) (s : string) :
  match_bounded (RLit c :: re) s = true <->
  exists r, s = String c r /\ match_bounded re r = true.
Proof.
  destruct s as [|c' s]; simpl.
  - split; [discriminate | intros [r [E _]]; discriminate].
  - rewrite andb_true_iff, Ascii.eqb_eq. split.
    + intros [-> Hr]. now exists s.
    + intros [r [E Hr]]. injection E as -> ->. now split.
Qed.

Lemma append_empty_r (s : string) : (s ++ "")%string = s.
Proof. induction s as [|c s IH]; simpl; congruence. Qed.

(** X1: [POST /books] accepts as ISBN exactly the strings made of five
    groups of decimal digits separated by single hyphens, the first of three
    digits, the second of one to five, the last three of one to seven. *)
Theorem isbn_test_iff (isbn : string) :
  isbn_test isbn = true <->
  exists g1 g2 g3 g4 g5,
    isbn = (g1 ++ String "-" (g2 ++ String "-" (g3 ++ String "-"
              (g4 ++ String "-" g5))))%string
    /\ String.length g1 = 3%nat
    /\ (1 <= String.length g2 <= 5)%nat
    /\ (1 <= String.length g3 <= 7)%nat
    /\ (1 <= String.length g4 <= 7)%nat
    /\ (1 <= String.length g5 <= 7)%nat
    /\ all_chars is_digit g1 = true /\ all_chars is_digit g2 = true
    /\ all_chars is_digit g3 = true /\ all_chars is_digit g4 = true
    /\ all_chars is_digit g5 = true.
Proof.
  unfold isbn_test. rewrite match_rep. split.
  - intros [g1 [r [-> [L1 [A1 H]]]]].
    apply match_rlit in H. destruct H as [r1 [-> H]].
    apply match_rep in H. destruct H as [g2 [r [-> [L2 [A2 H]]]]].
    apply match_rlit in H. destruct H as [r2 [-> H]].
    apply match_rep in H. destruct H as [g3 [r [-> [L3 [A3 H]]]]].
    apply match_rlit in H. destruct H as [r3 [-> H]].
    apply match_rep in H. destruct H as [g4 [r [-> [L4 [A4 H]]]]].
    apply match_rlit in H. destruct H as [r4 [-> H]].
    apply match_rep in H. destruct H as [g5 [r [-> [L5 [A5 H]]]]].
    destruct r; [|discriminate].
    exists g1, g2, g3, g4, g5. rewrite append_empty_r.
    repeat split; try assumption; lia.
  - intros [g1 [g2 [g3 [g4 [g5 [-> [L1 [L2 [L3 [L4 [L5 [A1 [A2 [A3 [A4 A5]]]]]]]]]]]]]]].
    eexists g1, _. split; [reflexivity|]. split; [lia|]. split; [exact A1|].
    apply match_rlit. eexists. split; [reflexivity|].
    apply match_rep. eexists g2, _. split; [reflexivity|]. split; [lia|]. split; [exact A2|].
    apply match_rlit. eexists. split; [reflexivity|].
    apply match_rep. eexists g3, _. split; [reflexivity|]. split; [lia|]. split; [exact A3|].
    apply match_rlit. eexists. split; [reflexivity|].
    apply match_rep. eexists g4, _. split; [reflexivity|]. split; [lia|]. split; [exact A4|].
    apply match_rlit. eexists. split; [reflexivity|].
    apply match_rep. exists g5, "". rewrite append_empty_r.
    split; [reflexivity|]. split; [lia|]. split; [exact A5 | reflexivity].
Qed.

(** ** The book routes *)

Lemma find_snoc_fresh (i : Z) (l : list Book.t) (b : Book.t) :
  (forall x, In x l -> Book.id x <> Book.id b) ->
  find (has_id i) (l ++ [b])
  = if Book.id b =? i then Some b else find (has_id i) l.
Proof.
  intros Hfresh. induction l as [|x l IH]; simpl.
  - unfold has_id. now destruct (Book.id b =? i).
  - unfold has_id at 1 3. destruct (Book.id x =? i) eqn:E.
    + apply Z.eqb_eq in E. destruct (Book.id b =? i) eqn:E2; [|reflexivity].
      apply Z.eqb_eq in E2. exfalso. apply (Hfresh x); [now left | congruence].
    + apply IH. intros y Hy. apply Hfresh. now right.
Qed.

Lemma isbn_free_iff (isbn : string) (s : db) :
  existsb (fun b => (Book.isbn b =? isbn)%string) (books s) = false <->
  (forall b, In b (books s) -> Book.isbn b <> isbn).
Proof.
  split.
  - intros H b Hb E.
    assert (existsb (fun b => (Book.isbn b =? isbn)%string) (books s) = true);
      [|congruence].
    apply existsb_exists. exists b. split; [exact Hb | now apply String.eqb_eq].
  - intros H. destruct (existsb _ (books s)) eqn:E; [|reflexivity].
    apply existsb_exists in E. destruct E as [b [Hb E]].
    apply String.eqb_eq in E. exfalso. exact (H b Hb E).
Qed.

(** X2: a book posted with a title, an author and a well-formed ISBN that no
    book has yet is created with the next id and [available = true]:
    the answer is 201 with that id, [GET /books/:id] on it answers the row
    posted, every other id is looked up as before, and no loan is touched. *)
Theorem post_book_then_get (title author isbn : string) (s : db) :
  keys_ok s -> title <> "" -> author <> "" -> isbn_test isbn = true ->
  (forall b, In b (books s) -> Book.isbn b <> isbn) ->
  let i := seq_books s + 1 in
  let created := Book.mk i title author isbn true in
  let answer := post_book (Some title) (Some author) (Some isbn) s in
  fst answer = mkBookResponse 201 (added_json "Book added successfully" (mkRun 1 i))
  /\ get_book i (snd answer) = (mkBookResponse 200 (one_book_json created), snd answer)
  /\ books (snd answer) = books s ++ [created]
  /\ (forall j, j <> i ->
      find (has_id j) (books (snd answer)) = find (has_id j) (books s))
  /\ borrows (snd answer) = borrows s
  /\ keys_ok (snd answer).
Proof.
  intros K Ht Ha Hre Hfree i created answer.
  assert (Hi : isbn <> "") by (intros ->; discriminate).
  assert (E : answer
              = (mkBookResponse 201 (added_json "Book added successfully" (mkRun 1 i)),
                 snd (addBook title author isbn s))).
  { subst answer. unfold post_book, try_catch_book, truthy, value.
    apply String.eqb_neq in Ht, Ha, Hi. rewrite Ht, Ha, Hi, Hre. cbn [negb orb].
    destruct (addBook_spec title author isbn s) as [[C _] | [_ E]].
    - exfalso. apply isbn_free_iff in Hfree. congruence.
    - rewrite (bind_ok _ _ _ _ _ E), E. reflexivity. }
  assert (S1 : snd answer = snd (addBook title author isbn s)) by now rewrite E.
  assert (Hfresh : forall x, In x (books s) -> Book.id x <> Book.id created).
  { intros x Hx. pose proof (book_ids_bounded _ K _ Hx). simpl. lia. }
  split; [now rewrite E|].
  assert (B : books (snd answer) = books s ++ [created]).
  { rewrite S1. destruct (addBook_spec title author isbn s) as [[C _] | [_ E2]].
    - exfalso. apply isbn_free_iff in Hfree. congruence.
    - now rewrite E2. }
  split; [|split; [exact B|split; [|split]]].
  - unfold get_book, try_catch_book.
    rewrite (bind_ok _ _ _ _ _ (getBookById_eq _ _)), B, (find_snoc_fresh _ _ _ Hfresh).
    simpl. now rewrite Z.eqb_refl.
  - intros j Hj. rewrite B, (find_snoc_fresh _ _ _ Hfresh). simpl.
    destruct (i =? j) eqn:Eij; [|reflexivity]. apply Z.eqb_eq in Eij. congruence.
  - rewrite S1. destruct (addBook_spec title author isbn s) as [[_ E2] | [_ E2]];
      now rewrite E2.
  - rewrite S1. now apply addBook_keys_ok.
Qed.

Lemma post_book_then_get_witness :
  let s := shelf false in
  let created := Book.mk 2 "C" "D" "978-0-13-468599-2" true in
  let answer := post_book (Some "C") (Some "D") (Some "978-0-13-468599-2") s in
  fst answer = mkBookResponse 201 (added_json "Book added successfully" (mkRun 1 2))
  /\ get_book 2 (snd answer) = (mkBookResponse 200 (one_book_json created), snd answer)
  /\ books (snd answer) = books s ++ [created]
  /\ (forall j, j <> 2 ->
      find (has_id j) (books (snd answer)) = find (has_id j) (books s))
  /\ borrows (snd answer) = borrows s
  /\ keys_ok (snd answer).
Proof.
  apply (post_book_then_get "C" "D" "978-0-13-468599-2" (shelf false)).
  - apply keys_okb_sound. reflexivity.
  - discriminate.
  - discriminate.
  - reflexivity.
  - intros b [<- | []]. discriminate.
Defined.

Lemma referenced_iff (i : Z) (s : db) :
  existsb (fun l => Borrow.book_id l =? i) (borrows s) = true <->
  exists l, In l (borrows s) /\ Borrow.book_id l = i.
Proof.
  rewrite existsb_exists. split; intros [l [Hl E]]; exists l; split; auto.
  - now apply Z.eqb_eq.
  - now apply Z.eqb_eq.
Qed.

Lemma find_filter_out (i : Z) (l : list Book.t) :
  find (has_id i) (filter (fun b => negb (has_id i b)) l) = None.
Proof.
  apply find_book_none. intros b Hb E. apply filter_In in Hb. destruct Hb as [_ Hb].
  apply negb_true_iff in Hb. unfold has_id in Hb. apply Z.eqb_neq in Hb. contradiction.
Qed.

Lemma get_book_eq (i : Z) (s : db) :
  get_book i s
  = (match find (has_id i) (books s) with
     | Some b => mkBookResponse 200 (one_book_json b)
     | None => mkBookResponse 404 (book_error_json "Book not found")
     end, s).
Proof.
  unfold get_book, try_catch_book.
  rewrite (bind_ok _ _ _ _ _ (getBookById_eq _ _)).
  now destruct (find (has_id i) (books s)).
Qed.

Lemma filter_all {A : Type} (p : A -> bool) (l : list A) :
  (forall x, In x l -> p x = true) -> filter p l = l.
Proof.
  induction l as [|x l IH]; simpl; intros H; [reflexivity|].
  rewrite (H x (or_introl eq_refl)). f_equal. apply IH. intros y Hy. apply H. now right.
Qed.

(** X4: [DELETE /books/:id] answers 404 exactly when no book has the id,
    500 exactly when the book exists, a loan refers to it and foreign keys
    are enforced, and 200 otherwise; unless it answers 200 the database is
    left as it was.  After a 200 the book is gone ([GET /books/:id] answers
    404) while every other book and every loan, those of the deleted book
    included, stay as they were. *)
Theorem delete_book_spec (bookId : Z) (s : db) :
  let answer := delete_book bookId s in
  let present := exists b, In b (books s) /\ Book.id b = bookId in
  let referenced := exists l, In l (borrows s) /\ Borrow.book_id l = bookId in
  (book_status (fst answer) = 404 <-> ~ present)
  /\ (book_status (fst answer) = 500 <->
      foreign_keys s = true /\ present /\ referenced)
  /\ (book_status (fst answer) = 200 <->
      present /\ ~ (foreign_keys s = true /\ referenced))
  /\ (book_status (fst answer) <> 200 -> snd answer = s)
  /\ (book_status (fst answer) = 200 ->
      get_book bookId (snd answer)
      = (mkBookResponse 404 (book_error_json "Book not found"), snd answer)
      /\ borrows (snd answer) = borrows s
      /\ (forall b, Book.id b <> bookId ->
          (In b (books (snd answer)) <-> In b (books s)))).
Proof.
  intros answer present referenced. subst answer present referenced.
  unfold delete_book, try_catch_book.
  pose proof (count_books_pos bookId s) as P.
  pose proof (referenced_iff bookId s) as R.
  destruct (deleteBook_spec bookId s) as [[V E] | [V E]].
  - rewrite (bind_throw _ _ _ _ _ E). cbn.
    unfold fk_violation in V.
    apply andb_true_iff in V. destruct V as [V V3].
    apply andb_true_iff in V. destruct V as [V1 V2].
    apply P in V2. apply R in V3.
    intuition (try discriminate; try congruence).
  - rewrite (bind_ok _ _ _ _ _ E).
    unfold fk_violation in V.
    destruct (0 <? count_books bookId s) eqn:C; cbn [negb].
    + assert (Hp : exists b, In b (books s) /\ Book.id b = bookId) by now apply P.
      assert (Hn : ~ (foreign_keys s = true
                      /\ exists l, In l (borrows s) /\ Borrow.book_id l = bookId)).
      { intros [F Hr]. apply R in Hr. rewrite F, Hr in V. discriminate. }
      cbn. split; [|split; [|split; [|split]]];
        try (intuition (try discriminate; try congruence); fail).
      intros _. split; [|split].
      * rewrite get_book_eq. cbn [books set_books]. now rewrite find_filter_out.
      * reflexivity.
      * intros b Hb. rewrite filter_In. unfold has_id.
        apply Z.eqb_neq in Hb. rewrite Hb. simpl. tauto.
    + assert (Hp : ~ exists b, In b (books s) /\ Book.id b = bookId).
      { intros H. apply P in H. congruence. }
      assert (Hs : set_books s (filter (fun b => negb (has_id bookId b)) (books s)) = s).
      { unfold set_books. rewrite filter_all; [now destruct s|].
        intros x Hx. apply negb_true_iff. unfold has_id. apply Z.eqb_neq.
        intros Hid. apply Hp. now exists x. }
      cbn. split; [|split; [|split; [|split]]];
        try (intuition (try discriminate; try congruence); fail).
Qed.

Lemma delete_book_spec_witness :
  let answer := delete_book 1 (lent false) in
  get_book 1 (snd answer)
  = (mkBookResponse 404 (book_error_json "Book not found"), snd answer)
  /\ borrows (snd answer) = borrows (lent false)
  /\ (forall b, Book.id b <> 1 ->
      (In b (books (snd answer)) <-> In b (books (lent false)))).
Proof.
  apply (proj2 (proj2 (proj2 (proj2 (delete_book_spec 1 (lent false)))))).
  reflexivity.
Defined.

(** ** The UNIQUE constraint on [isbn] *)

Lemma NoDup_snoc {A : Type} (l : list A) (x : A) :
  NoDup l -> ~ In x l -> NoDup (l ++ [x]).
Proof.
  induction l as [|y l IH]; simpl; intros Hnd Hx.
  - constructor; [intros [] | constructor].
  - inversion Hnd as [|? ? Hy Hl]; subst. constructor.
    + rewrite in_app_iff. intros [H | [H | []]]; [contradiction|].
      apply Hx. now left.
    + apply IH; [exact Hl|]. intros H. apply Hx. now right.
Qed.

Lemma updated_isbn (t a n : option string) (b : Book.t) :
  Book.isbn (updated t a n b) = if truthy n then value n else Book.isbn b.
Proof. reflexivity. Qed.

Lemma isbn_unique_update (i : Z) (t a n : option string) (l : list Book.t) :
  NoDup (map Book.id l) -> NoDup (map Book.isbn l) ->
  (truthy n = true ->
   forall b, In b l -> Book.id b <> i -> Book.isbn b <> value n) ->
  NoDup (map Book.isbn (update_where (has_id i) (updated t a n) l)).
Proof.
  destruct (truthy n) eqn:T.
  - intros Hid Hisbn Hfree. specialize (Hfree eq_refl).
    induction l as [|x l IH]; simpl; [constructor|].
    inversion Hid as [|? ? Hx1 Hid']; subst.
    inversion Hisbn as [|? ? Hx2 Hisbn']; subst.
    assert (IH' := IH Hid' Hisbn' (fun b Hb => Hfree b (or_intror Hb))).
    destruct (has_id i x) eqn:E.
    + unfold has_id in E. apply Z.eqb_eq in E.
      assert (Hrest : update_where (has_id i) (updated t a n) l = l).
      { apply update_where_none. intros y Hy Hyid. exfalso. apply Hx1.
        unfold has_id in Hyid. apply Z.eqb_eq in Hyid.
        rewrite E, <- Hyid. now apply in_map. }
      fold (update_where (has_id i) (updated t a n) l). rewrite Hrest.
      constructor; [|exact Hisbn'].
      rewrite updated_isbn, T. intros Hin. apply in_map_iff in Hin.
      destruct Hin as [y [Hy1 Hy2]].
      apply (Hfree y (or_intror Hy2)); [|exact Hy1].
      intros Hyid. apply Hx1. rewrite E, <- Hyid. now apply in_map.
    + constructor; [|exact IH'].
      unfold has_id in E. apply Z.eqb_neq in E.
      intros Hin. apply in_map_iff in Hin. destruct Hin as [y' [Hy1 Hy2]].
      apply in_update_where in Hy2. destruct Hy2 as [y [Hy ->]].
      destruct (has_id i y).
      * rewrite updated_isbn, T in Hy1.
        apply (Hfree x (or_introl eq_refl) E). now symmetry.
      * apply Hx2. rewrite <- Hy1. now apply in_map.
  - intros _ Hisbn _.
    rewrite update_where_keys; [exact Hisbn|].
    intros x. now rewrite updated_isbn, T.
Qed.

Lemma step_isbn_unique (o : op) (s : db) :
  keys_ok s -> isbn_unique s -> isbn_unique (step o s).
Proof.
  unfold isbn_unique. intros K U.
  destruct o as [t a n | i t a n | i | n1 n2 i e | i]; simpl.
  - destruct (addBook_spec t a n s) as [[_ E] | [C E]]; rewrite E; simpl; [exact U|].
    rewrite map_app. simpl. apply NoDup_snoc; [exact U|].
    intros Hin. apply in_map_iff in Hin. destruct Hin as [b [Hb1 Hb2]].
    exact (proj1 (isbn_free_iff _ _) C b Hb2 Hb1).
  - destruct (find (has_id i) (books s)) as [book|] eqn:F;
      [|now rewrite (updateBook_missing _ _ _ _ _ F)].
    destruct (isbn_clash i (collect_updates t a n) s) eqn:C;
      [now rewrite (updateBook_clash _ _ _ _ _ _ F C)|].
    destruct (updateBook_state i t a n s) as [E | E]; rewrite E; [exact U|].
    simpl.
    rewrite (map_ext_in _ _ _
               (fun x _ => f_equal (fun y => if has_id i x then y else x)
                                   (fold_assign_collect t a n x))
             : update_where (has_id i)
                 (fun b => fold_left assign (collect_updates t a n) b) (books s)
               = update_where (has_id i) (updated t a n) (books s)).
    apply isbn_unique_update; [apply (book_ids_distinct _ K) | exact U|].
    intros T b Hb Hid Hisbn.
    assert (isbn_clash i (collect_updates t a n) s = true); [|congruence].
    apply isbn_clash_iff. split; [exact T|]. now exists b.
  - destruct (deleteBook_spec i s) as [[_ E] | [_ E]]; rewrite E; simpl; [exact U|].
    now apply NoDup_map_filter.
  - destruct (find (has_id i) (books s)) as [book|] eqn:F;
      [|now rewrite (addBorrow_missing _ _ _ _ _ F)].
    destruct (Book.available book) eqn:A;
      [|now rewrite (addBorrow_unavailable _ _ _ _ _ _ F A)].
    rewrite (addBorrow_available _ _ _ _ _ _ F A). simpl.
    now rewrite update_where_keys by reflexivity.
  - destruct (find (borrow_has_id i) (borrows s)) as [loan|] eqn:F;
      [|now rewrite (markAsReturned_missing _ _ F)].
    rewrite (markAsReturned_found _ _ _ F). simpl.
    now rewrite update_where_keys by reflexivity.
Qed.

(** X5: in every state the program reaches, no two books have the same
    ISBN, and the primary keys of both tables are distinct, positive and at
    most the AUTOINCREMENT counter of their table. *)
Theorem reachable_unique_keys (s : db) :
  reachable s -> isbn_unique s /\ keys_ok s.
Proof.
  intros [fk [ops ->]].
  assert (H : forall s0, keys_ok s0 -> isbn_unique s0 ->
                         isbn_unique (run ops s0) /\ keys_ok (run ops s0)).
  { induction ops as [|o ops IH]; intros s0 K U; simpl; [now split|].
    apply IH; [now apply step_keys_ok | now apply step_isbn_unique]. }
  apply H; [apply initDB_keys_ok | constructor].
Qed.

Lemma reachable_unique_keys_witness :
  isbn_unique two_lent /\ keys_ok two_lent.
Proof.
  apply (reachable_unique_keys two_lent).
  exists false,
    [AddBook "A" "B" "978-0-13-468599-1"; AddBook "C" "D" "978-0-13-468599-2";
     AddBorrow 0 0 1 "x@y.com"; AddBorrow 0 0 2 "z@y.com"].
  reflexivity.
Defined.

(** ** Invariants of the ledger *)

Lemma step_foreign_keys (o : op) (s : db) : foreign_keys (step o s) = foreign_keys s.
Proof.
  destruct o as [t a n | i t a n | i | n1 n2 i e | i]; simpl.
  - destruct (addBook_spec t a n s) as [[_ E] | [_ E]]; now rewrite E.
  - destruct (updateBook_state i t a n s) as [E | E]; now rewrite E.
  - destruct (deleteBook_spec i s) as [[_ E] | [_ E]]; now rewrite E.
  - destruct (find (has_id i) (books s)) as [book|] eqn:F.
    + destruct (Book.available book) eqn:A.
      * now rewrite (addBorrow_available _ _ _ _ _ _ F A).
      * now rewrite (addBorrow_unavailable _ _ _ _ _ _ F A).
    + now rewrite (addBorrow_missing _ _ _ _ _ F).
  - destruct (find (borrow_has_id i) (borrows s)) as [loan|] eqn:F.
    + now rewrite (markAsReturned_found _ _ _ F).
    + now rewrite (markAsReturned_missing _ _ F).
Qed.

Lemma in_update_where_key {A K : Type} (key : A -> K) (p : A -> bool) (f : A -> A)
    (l : list A) (x : A) :
  (forall y, key (f y) = key y) -> In x l ->
  exists x', In x' (update_where p f l) /\ key x' = key x.
Proof.
  intros Hk Hx. exists (if p x then f x else x). split.
  - apply in_update_where. now exists x.
  - destruct (p x); [apply Hk | reflexivity].
Qed.

Lemma step_refs_exist (o : op) (s : db) :
  foreign_keys s = true -> refs_exist s -> refs_exist (step o s).
Proof.
  intros FK I. destruct o as [t a n | i t a n | i | n1 n2 i e | i]; simpl.
  - destruct (addBook_spec t a n s) as [[_ E] | [_ E]]; rewrite E; simpl; [exact I|].
    intros l Hl. destruct (I l Hl) as [b [Hb Hid]]. exists b.
    split; [apply in_app_iff; now left | exact Hid].
  - destruct (updateBook_state i t a n s) as [E | E]; rewrite E; [exact I|].
    intros l Hl. simpl in *. destruct (I l Hl) as [b [Hb Hid]].
    destruct (in_update_where_key Book.id (has_id i)
                (fun b => fold_left assign (collect_updates t a n) b) _ b
                (fold_assign_id _) Hb) as [b' [Hb' Hid']].
    exists b'. split; [exact Hb' | congruence].
  - destruct (deleteBook_spec i s) as [[_ E] | [V E]]; rewrite E; simpl; [exact I|].
    intros l Hl. destruct (I l Hl) as [b [Hb Hid]]. exists b. split; [|exact Hid].
    apply filter_In. split; [exact Hb|]. apply negb_true_iff. unfold has_id.
    apply Z.eqb_neq. intros Hbi.
    unfold fk_violation in V. rewrite FK in V.
    assert (C : (0 <? count_books i s) = true) by (apply count_books_pos; now exists b).
    assert (R : existsb (fun l => Borrow.book_id l =? i) (borrows s) = true).
    { apply referenced_iff. exists l. split; [exact Hl | congruence]. }
    rewrite C, R in V. discriminate.
  - destruct (find (has_id i) (books s)) as [book|] eqn:F;
      [|now rewrite (addBorrow_missing _ _ _ _ _ F)].
    destruct (Book.available book) eqn:A;
      [|now rewrite (addBorrow_unavailable _ _ _ _ _ _ F A)].
    rewrite (addBorrow_available _ _ _ _ _ _ F A).
    pose proof (find_book_some _ _ _ F) as [Fin Fid].
    intros l Hl. simpl in *. apply in_app_iff in Hl.
    destruct Hl as [Hl | [<- | []]].
    + destruct (I l Hl) as [b [Hb Hid]].
      destruct (in_update_where_key Book.id (has_id i) (with_available false) _ b
                  (fun _ => eq_refl) Hb) as [b' [Hb' Hid']].
      exists b'. split; [exact Hb' | congruence].
    + destruct (in_update_where_key Book.id (has_id i) (with_available false) _ book
                  (fun _ => eq_refl) Fin) as [b' [Hb' Hid']].
      exists b'. split; [exact Hb' | simpl; congruence].
  - destruct (find (borrow_has_id i) (borrows s)) as [loan|] eqn:F;
      [|now rewrite (markAsReturned_missing _ _ F)].
    rewrite (markAsReturned_found _ _ _ F).
    intros l' Hl'. simpl in *. apply in_update_where in Hl'.
    destruct Hl' as [l [Hl ->]]. destruct (I l Hl) as [b [Hb Hid]].
    destruct (in_update_where_key Book.id (has_id (Borrow.book_id loan))
                (with_available true) _ b (fun _ => eq_refl) Hb) as [b' [Hb' Hid']].
    exists b'. split; [exact Hb'|]. rewrite Hid', Hid.
    now destruct (borrow_has_id i l).
Qed.

(** X8: on a connection that enforces foreign keys, every loan of every
    reachable state refers to a book that is in the catalog: a book that has
    ever been lent cannot be deleted, and both notification queries list
    every active loan. *)
Theorem enforced_references_exist (ops : list op) :
  let s := run ops (initDB true) in
  refs_exist s
  /\ (forall loan, In loan (borrows s) ->
      deleteBook (Borrow.book_id loan) s
      = (Throw (SqliteError "FOREIGN KEY constraint failed"), s))
  /\ (forall now loan, In loan (borrows s) -> Borrow.returned loan = false ->
      exists row, borrow row = loan
                  /\ (In row (getPendingReturns now s) \/ In row (getOverdueBooks now s))).
Proof.
  intros s.
  assert (H : forall s0, foreign_keys s0 = true -> refs_exist s0 ->
                         foreign_keys (run ops s0) = true /\ refs_exist (run ops s0)).
  { induction ops as [|o ops IH]; intros s0 F I; simpl; [now split|].
    apply IH; [now rewrite step_foreign_keys | now apply step_refs_exist]. }
  destruct (H (initDB true) eq_refl (fun l (Hl : In l []) => match Hl with end))
    as [FK I].
  fold s in FK, I. split; [exact I|]. split.
  - intros loan Hl. destruct (I loan Hl) as [b [Hb Hid]].
    destruct (deleteBook_spec (Borrow.book_id loan) s) as [[_ E] | [V _]];
      [exact E|].
    exfalso. unfold fk_violation in V. rewrite FK in V.
    assert (C : (0 <? count_books (Borrow.book_id loan) s) = true)
      by (apply count_books_pos; now exists b).
    assert (R : existsb (fun l => Borrow.book_id l =? Borrow.book_id loan) (borrows s)
                = true) by (apply referenced_iff; now exists loan).
    rewrite C, R in V. discriminate.
  - intros now loan Hl Hr. destruct (I loan Hl) as [b [Hb Hid]].
    exists (mkRow loan (Book.title b) (Book.author b)). split; [reflexivity|].
    unfold getPendingReturns, getOverdueBooks.
    destruct (sql_ge_date_now now (Borrow.return_date loan)) eqn:D.
    + left. apply in_join_books. exists loan, b. repeat split; auto.
      now rewrite Hr, D.
    + right. apply in_join_books. exists loan, b. repeat split; auto.
      rewrite Hr. simpl. unfold sql_ge_date_now in D. unfold sql_lt_date_now.
      apply Z.leb_gt in D. now apply Z.ltb_lt.
Qed.

Lemma enforced_references_exist_witness :
  deleteBook 1 (lent true) = (Throw (SqliteError "FOREIGN KEY constraint failed"), lent true).
Proof.
  apply (proj1 (proj2 (enforced_references_exist
                         [AddBook "A" "B" "978-0-13-468599-1"; AddBorrow 0 0 1 "x@y.com"]))
           (Borrow.mk 1 1 "x@y.com" 0 (setDate_plus 0 14) false)).
  left. reflexivity.
Defined.

Lemma same_loan_refl (l : Borrow.t) : same_loan l l.
Proof. unfold same_loan. repeat split; auto. Qed.

Lemma same_loan_trans (l1 l2 l3 : Borrow.t) :
  same_loan l1 l2 -> same_loan l2 l3 -> same_loan l1 l3.
Proof.
  unfold same_loan. intros [A1 [A2 [A3 [A4 [A5 A6]]]]] [B1 [B2 [B3 [B4 [B5 B6]]]]].
  repeat split; try congruence. auto.
Qed.

Lemma step_keeps_loans (o : op) (s : db) (l : Borrow.t) :
  In l (borrows s) -> exists l', In l' (borrows (step o s)) /\ same_loan l l'.
Proof.
  intros Hl. destruct o as [t a n | i t a n | i | n1 n2 i e | i]; simpl.
  - exists l. split; [|apply same_loan_refl].
    destruct (addBook_spec t a n s) as [[_ E] | [_ E]]; now rewrite E.
  - exists l. split; [|apply same_loan_refl].
    destruct (updateBook_state i t a n s) as [E | E]; now rewrite E.
  - exists l. split; [|apply same_loan_refl].
    destruct (deleteBook_spec i s) as [[_ E] | [_ E]]; now rewrite E.
  - exists l. split; [|apply same_loan_refl].
    destruct (find (has_id i) (books s)) as [book|] eqn:F.
    + destruct (Book.available book) eqn:A.
      * rewrite (addBorrow_available _ _ _ _ _ _ F A). simpl.
        apply in_app_iff. now left.
      * now rewrite (addBorrow_unavailable _ _ _ _ _ _ F A).
    + now rewrite (addBorrow_missing _ _ _ _ _ F).
  - destruct (find (borrow_has_id i) (borrows s)) as [loan|] eqn:F.
    + rewrite (markAsReturned_found _ _ _ F). simpl.
      exists (if borrow_has_id i l then with_returned true l else l). split.
      * apply in_update_where. now exists l.
      * destruct (borrow_has_id i l); [|apply same_loan_refl].
        unfold same_loan. simpl. repeat split; auto.
    + rewrite (markAsReturned_missing _ _ F). exists l.
      split; [exact Hl | apply same_loan_refl].
Qed.

(** X9: no call deletes or rewrites a loan.  Whatever is called afterwards,
    a loan of the ledger is still there with the same id, book, borrower,
    borrow date and return date, and once returned it stays returned. *)
Theorem loans_are_kept (ops : list op) (s : db) (loan : Borrow.t) :
  In loan (borrows s) ->
  exists loan', In loan' (borrows (run ops s)) /\ same_loan loan loan'.
Proof.
  revert s loan. induction ops as [|o ops IH]; intros s loan Hl; simpl.
  - exists loan. split; [exact Hl | apply same_loan_refl].
  - destruct (step_keeps_loans o s loan Hl) as [l1 [H1 S1]].
    destruct (IH _ _ H1) as [l2 [H2 S2]].
    exists l2. split; [exact H2 | exact (same_loan_trans _ _ _ S1 S2)].
Qed.

Lemma loans_are_kept_witness :
  exists loan',
    In loan' (borrows (run [MarkAsReturned 1; DeleteBook 1; MarkAsReturned 1] (lent false)))
    /\ same_loan (Borrow.mk 1 1 "x@y.com" 0 (setDate_plus 0 14) false) loan'.
Proof.
  apply (loans_are_kept [MarkAsReturned 1; DeleteBook 1; MarkAsReturned 1] (lent false)).
  left. reflexivity.
Defined.

Lemma step_refs_bounded (o : op) (s : db) :
  keys_ok s -> refs_bounded s -> refs_bounded (step o s).
Proof.
  intros K I l Hl.
  pose proof (step_seq_books o s) as Hseq.
  destruct (step_borrows o s l Hl) as [[l0 [Hl0 [_ E]]] | E].
  - rewrite <- E. specialize (I l0 Hl0). lia.
  - (* the loan just inserted by addBorrow *)
    destruct o as [t a n | i t a n | i | n1 n2 i e | i]; simpl in *.
    + destruct (addBook_spec t a n s) as [[_ E2] | [_ E2]]; rewrite E2 in Hl;
        simpl in Hl; pose proof (borrow_ids_bounded _ K _ Hl); lia.
    + destruct (updateBook_state i t a n s) as [E2 | E2]; rewrite E2 in Hl;
        simpl in Hl; pose proof (borrow_ids_bounded _ K _ Hl); lia.
    + destruct (deleteBook_spec i s) as [[_ E2] | [_ E2]]; rewrite E2 in Hl;
        simpl in Hl; pose proof (borrow_ids_bounded _ K _ Hl); lia.
    + destruct (find (has_id i) (books s)) as [book|] eqn:F.
      * destruct (Book.available book) eqn:A.
        -- rewrite (addBorrow_available _ _ _ _ _ _ F A) in Hl. simpl in Hl.
           apply in_app_iff in Hl. destruct Hl as [Hl | [<- | []]].
           ++ pose proof (borrow_ids_bounded _ K _ Hl). lia.
           ++ pose proof (find_book_some _ _ _ F) as [Fin Fid].
              pose proof (book_ids_bounded _ K _ Fin).
              change (Borrow.book_id
                        (Borrow.mk (seq_borrows s + 1) i e n1 (setDate_plus n2 14) false))
                with i. lia.
        -- rewrite (addBorrow_unavailable _ _ _ _ _ _ F A) in Hl. simpl in Hl.
           pose proof (borrow_ids_bounded _ K _ Hl). lia.
      * rewrite (addBorrow_missing _ _ _ _ _ F) in Hl. simpl in Hl.
        pose proof (borrow_ids_bounded _ K _ Hl). lia.
    + pose proof (borrow_ids_bounded _ (markAsReturned_keys_ok i s K) _ Hl) as B.
      pose proof (step_seq_borrows (MarkAsReturned i) s) as Hsb. simpl in Hsb.
      destruct (find (borrow_has_id i) (borrows s)) as [loan|] eqn:F.
      * rewrite (markAsReturned_found _ _ _ F) in B. simpl in B. lia.
      * rewrite (markAsReturned_missing _ _ F) in B. simpl in B. lia.
Qed.

Lemma reachable_refs_bounded (s : db) : reachable s -> refs_bounded s.
Proof.
  intros [fk [ops ->]].
  assert (H : forall s0, keys_ok s0 -> refs_bounded s0 -> refs_bounded (run ops s0)).
  { induction ops as [|o ops IH]; intros s0 K I; simpl; [exact I|].
    apply IH; [now apply step_keys_ok | now apply step_refs_bounded]. }
  apply H; [apply initDB_keys_ok|]. intros l [].
Qed.

(** X10: book ids are never reused.  In a reachable state, the id given to
    a new book is above the id of every book and above the [book_id] of
    every loan, those of deleted books included: a new book starts with no
    loan and never inherits the loans of a deleted one. *)
Theorem new_book_has_no_loans (title author isbn : string) (s s' : db) (r : RunResult) :
  reachable s ->
  addBook title author isbn s = (Ok r, s') ->
  In (Book.mk (lastInsertRowid r) title author isbn true) (books s')
  /\ (forall b, In b (books s) -> Book.id b < lastInsertRowid r)
  /\ (forall l, In l (borrows s') -> Borrow.book_id l < lastInsertRowid r)
  /\ ~ active_loan_on s' (lastInsertRowid r).
Proof.
  intros R E.
  pose proof (reachable_keys_ok _ R) as K.
  pose proof (reachable_refs_bounded _ R) as B.
  destruct (addBook_spec title author isbn s) as [[_ E2] | [_ E2]];
    rewrite E2 in E; [discriminate|].
  injection E as <- <-. simpl.
  assert (Hl : forall l, In l (borrows s) -> Borrow.book_id l < seq_books s + 1).
  { intros l Hl. specialize (B l Hl). lia. }
  repeat split.
  - apply in_app_iff. right. now left.
  - intros b Hb. pose proof (book_ids_bounded _ K _ Hb). lia.
  - exact Hl.
  - intros [l [Hin [_ Hid]]]. simpl in Hin. specialize (Hl l Hin). lia.
Qed.

Lemma new_book_has_no_loans_witness :
  let s := run [DeleteBook 1] (lent false) in
  let s' := snd (addBook "C" "D" "978-0-13-468599-2" s) in
  In (Book.mk 2 "C" "D" "978-0-13-468599-2" true) (books s')
  /\ (forall b, In b (books s) -> Book.id b < 2)
  /\ (forall l, In l (borrows s') -> Borrow.book_id l < 2)
  /\ ~ active_loan_on s' 2.
Proof.
  apply (new_book_has_no_loans "C" "D" "978-0-13-468599-2"
           (run [DeleteBook 1] (lent false))
           (snd (addBook "C" "D" "978-0-13-468599-2" (run [DeleteBook 1] (lent false))))
           (mkRun 1 2)).
  - exists false, [AddBook "A" "B" "978-0-13-468599-1"; AddBorrow 0 0 1 "x@y.com";
                   DeleteBook 1].
    reflexivity.
  - reflexivity.
Defined.

(** ** How borrowing and returning compose *)

Lemma update_where_nobody {A : Type} (p : A -> bool) (f : A -> A) (l : list A) :
  (forall x, In x l -> p x = false) -> update_where p f l = l.
Proof.
  intros H. apply update_where_none. intros x Hx Hp. rewrite (H x Hx) in Hp. discriminate.
Qed.

Lemma update_where_app {A : Type} (p : A -> bool) (f : A -> A) (l1 l2 : list A) :
  update_where p f (l1 ++ l2) = update_where p f l1 ++ update_where p f l2.
Proof. unfold update_where. apply map_app. Qed.

Lemma update_where_twice {A : Type} (p : A -> bool) (f g : A -> A) (l : list A) :
  (forall x, p (f x) = p x) ->
  update_where p g (update_where p f l) = update_where p (fun x => g (f x)) l.
Proof.
  intros H. unfold update_where. rewrite map_map. apply map_ext. intros x.
  destruct (p x) eqn:E; [now rewrite H, E | now rewrite E].
Qed.

Lemma with_available_back (v w : bool) (b : Book.t) :
  Book.available b = v -> with_available v (with_available w b) = b.
Proof. destruct b. simpl. now intros ->. Qed.

(** X11: borrowing an available book and returning that loan puts the
    catalog back exactly as it was and leaves the ledger with one more
    loan, returned.  In between, a second borrow of the book is refused and
    writes nothing; after the return, the book can be borrowed again. *)
Theorem borrow_return_cycle (now1 now2 now3 now4 : Z) (s : db) (book : Book.t)
    (reader other : string) :
  keys_ok s -> In book (books s) -> Book.available book = true ->
  let bookId := Book.id book in
  let loanId := seq_borrows s + 1 in
  let loan := Borrow.mk loanId bookId reader now1 (setDate_plus now2 14) in
  let s1 := snd (addBorrow now1 now2 bookId reader s) in
  let s2 := snd (markAsReturned loanId s1) in
  addBorrow now3 now4 bookId other s1 = (Throw BookNotAvailable, s1)
  /\ markAsReturned loanId s1 = (Ok true, s2)
  /\ books s2 = books s
  /\ borrows s1 = borrows s ++ [loan false]
  /\ borrows s2 = borrows s ++ [loan true]
  /\ fst (addBorrow now3 now4 bookId other s2) = Ok (mkRun 1 (loanId + 1)).
Proof.
  intros K Hin Ha bookId loanId loan s1 s2.
  assert (F : find (has_id bookId) (books s) = Some book)
    by exact (find_book_unique _ _ (book_ids_distinct _ K) Hin).
  pose proof (addBorrow_available now1 now2 _ reader _ _ F Ha) as E1.
  assert (K1 : keys_ok s1) by (subst s1; now apply addBorrow_keys_ok).
  assert (B1 : borrows s1 = borrows s ++ [loan false]) by (subst s1; now rewrite E1).
  assert (Bk1 : books s1 = update_where (has_id bookId) (with_available false) (books s))
    by (subst s1; now rewrite E1).
  assert (Hin1 : In (with_available false book) (books s1)).
  { rewrite Bk1. apply in_update_where. exists book. split; [exact Hin|].
    unfold has_id, bookId. now rewrite Z.eqb_refl. }
  assert (F1 : find (has_id bookId) (books s1) = Some (with_available false book))
    by exact (find_book_unique _ _ (book_ids_distinct _ K1) Hin1).
  assert (FL : find (borrow_has_id loanId) (borrows s1) = Some (loan false)).
  { apply (find_borrow_unique _ (loan false) (borrow_ids_distinct _ K1)).
    rewrite B1. apply in_app_iff. right. now left. }
  pose proof (markAsReturned_found _ _ _ FL) as E2.
  assert (Bk2 : books s2 = books s).
  { subst s2. rewrite E2. simpl. rewrite Bk1.
    rewrite update_where_twice by reflexivity.
    apply update_where_none. intros x Hx Hp. unfold has_id in Hp. apply Z.eqb_eq in Hp.
    assert (x = book) by (apply (same_key_same_book s); auto).
    subst x. now apply with_available_back. }
  assert (B2 : borrows s2 = borrows s ++ [loan true]).
  { subst s2. rewrite E2. simpl. rewrite B1, update_where_app. f_equal.
    - apply update_where_nobody. intros x Hx. unfold borrow_has_id.
      apply Z.eqb_neq. pose proof (borrow_ids_bounded _ K _ Hx). unfold loanId. lia.
    - simpl. unfold borrow_has_id. simpl. now rewrite Z.eqb_refl. }
  split; [exact (addBorrow_unavailable _ _ _ _ _ _ F1 eq_refl)|].
  split; [subst s2; now rewrite E2|].
  split; [exact Bk2|]. split; [exact B1|]. split; [exact B2|].
  assert (F2 : find (has_id bookId) (books s2) = Some book) by now rewrite Bk2.
  rewrite (addBorrow_available _ _ _ _ _ _ F2 Ha). simpl.
  subst s2. rewrite E2. simpl. subst s1. rewrite E1. reflexivity.
Qed.

Lemma borrow_return_cycle_witness :
  let s := shelf false in
  let loan := Borrow.mk 1 1 "x@y.com" 0 (setDate_plus 0 14) in
  let s1 := snd (addBorrow 0 0 1 "x@y.com" s) in
  let s2 := snd (markAsReturned 1 s1) in
  addBorrow 5 5 1 "z@y.com" s1 = (Throw BookNotAvailable, s1)
  /\ markAsReturned 1 s1 = (Ok true, s2)
  /\ books s2 = books s
  /\ borrows s1 = borrows s ++ [loan false]
  /\ borrows s2 = borrows s ++ [loan true]
  /\ fst (addBorrow 5 5 1 "z@y.com" s2) = Ok (mkRun 1 2).
Proof.
  apply (borrow_return_cycle 0 0 5 5 (shelf false)
           (Book.mk 1 "A" "B" "978-0-13-468599-1" true) "x@y.com" "z@y.com").
  - apply keys_okb_sound. reflexivity.
  - left. reflexivity.
  - reflexivity.
Defined.

(** ** The scheduled jobs *)

Lemma overdue_loop_all_accepted (smtp : transport) (rows : list PendingRow) :
  (forall r, In r rows -> smtp (overdue_of r) = None) ->
  overdue_loop smtp rows = mkLog (map overdue_of rows) None.
Proof.
  induction rows as [|r rows IH]; simpl; intros Hacc; [reflexivity|].
  rewrite (Hacc r (or_introl eq_refl)), (IH (fun x Hx => Hacc x (or_intror Hx))).
  reflexivity.
Qed.

Lemma overdue_loop_stops (smtp : transport) (before after : list PendingRow)
    (row : PendingRow) (msg : string) :
  (forall r, In r before -> smtp (overdue_of r) = None) ->
  smtp (overdue_of row) = Some msg ->
  overdue_loop smtp (before ++ row :: after)
  = mkLog (map overdue_of before ++ [overdue_of row]) (Some (MailError msg)).
Proof.
  induction before as [|r before IH]; simpl; intros Hacc R.
  - now rewrite R.
  - rewrite (Hacc r (or_introl eq_refl)),
      (IH (fun x Hx => Hacc x (or_intror Hx)) R). reflexivity.
Qed.

(** X14: the 10 AM job hands the transport one overdue notice per row of
    [getOverdueBooks], in order and whatever was sent on earlier days, as
    long as the transport accepts them; the first rejected notice ends the
    run, is logged, and leaves the rows after it without notice.  Nothing is
    sent that is not the notice of an overdue row. *)
Theorem overdue_job_spec (smtp : transport) (now : Z) (s : db) :
  let overdue := getOverdueBooks now s in
  let log := overdue_job smtp now s in
  (forall m, In m (handed log) -> exists row, In row overdue /\ m = overdue_of row)
  /\ ((forall r, In r overdue -> smtp (overdue_of r) = None) ->
      log = mkLog (map overdue_of overdue) None)
  /\ (forall before row after msg,
        overdue = before ++ row :: after ->
        (forall r, In r before -> smtp (overdue_of r) = None) ->
        smtp (overdue_of row) = Some msg ->
        log = mkLog (map overdue_of before ++ [overdue_of row])
                    (Some (MailError msg))).
Proof.
  intros overdue log. subst log. unfold overdue_job. fold overdue.
  split; [|split].
  - intros m. apply overdue_loop_sound.
  - apply overdue_loop_all_accepted.
  - intros before row after msg ->. apply overdue_loop_stops.
Qed.

Lemma overdue_job_spec_witness :
  let now := 15 * ms_per_day in
  overdue_job reject_x now two_lent
  = mkLog [overdue_of (mkRow (Borrow.mk 1 1 "x@y.com" 0 (14 * ms_per_day) false) "A" "B")]
          (Some (MailError "Mailbox unavailable")).
Proof.
  apply (proj2 (proj2 (overdue_job_spec reject_x (15 * ms_per_day) two_lent))
           [] (mkRow (Borrow.mk 1 1 "x@y.com" 0 (14 * ms_per_day) false) "A" "B")
           [mkRow (Borrow.mk 2 2 "z@y.com" 0 (14 * ms_per_day) false) "C" "D"]
           "Mailbox unavailable").
  - reflexivity.
  - intros r [].
  - reflexivity.
Defined.

Lemma utc_day_mono (a b : Z) : a <= b -> utc_day a <= utc_day b.
Proof. intros H. unfold utc_day. apply Z.div_le_mono; [apply ms_per_day_pos | exact H]. Qed.

(** X15: at any instant the two notification queries split the active loans
    whose book is in the catalog: such a loan is listed by
    [getPendingReturns] when its return date falls today (UTC) or later, by
    [getOverdueBooks] otherwise, never by both; a loan whose return instant
    has not passed is pending, and no returned loan is listed. *)
Theorem pending_overdue_partition (now : Z) (s : db) :
  (forall row, In row (getPendingReturns now s) -> ~ In row (getOverdueBooks now s))
  /\ (forall row, In row (getPendingReturns now s) \/ In row (getOverdueBooks now s) ->
      In (borrow row) (borrows s) /\ Borrow.returned (borrow row) = false)
  /\ (forall loan book,
        In loan (borrows s) -> In book (books s) ->
        Book.id book = Borrow.book_id loan -> Borrow.returned loan = false ->
        let row := mkRow loan (Book.title book) (Book.author book) in
        (In row (getPendingReturns now s) <->
         utc_day now <= utc_day (Borrow.return_date loan))
        /\ (In row (getOverdueBooks now s) <->
            utc_day (Borrow.return_date loan) < utc_day now)
        /\ (now <= Borrow.return_date loan -> In row (getPendingReturns now s))).
Proof.
  assert (P : forall row, In row (getPendingReturns now s) ->
                In (borrow row) (borrows s) /\ Borrow.returned (borrow row) = false
                /\ utc_day now <= utc_day (Borrow.return_date (borrow row))).
  { intros row H. apply in_join_books in H.
    destruct H as [loan [book [Hl [Hc [_ [_ ->]]]]]]. simpl.
    apply andb_true_iff in Hc. destruct Hc as [Hr Hd].
    apply negb_true_iff in Hr. unfold sql_ge_date_now in Hd. apply Z.leb_le in Hd.
    auto. }
  assert (O : forall row, In row (getOverdueBooks now s) ->
                In (borrow row) (borrows s) /\ Borrow.returned (borrow row) = false
                /\ utc_day (Borrow.return_date (borrow row)) < utc_day now).
  { intros row H. apply in_join_books in H.
    destruct H as [loan [book [Hl [Hc [_ [_ ->]]]]]]. simpl.
    apply andb_true_iff in Hc. destruct Hc as [Hr Hd].
    apply negb_true_iff in Hr. unfold sql_lt_date_now in Hd. apply Z.ltb_lt in Hd.
    auto. }
  split; [|split].
  - intros row Hp Ho. apply P in Hp. apply O in Ho. lia.
  - intros row [H | H]; [apply P in H | apply O in H]; tauto.
  - intros loan book Hl Hb Hid Hr row.
    assert (Pi : In row (getPendingReturns now s) <->
                 utc_day now <= utc_day (Borrow.return_date loan)).
    { split.
      - intros H. apply P in H. simpl in H. tauto.
      - intros H. apply in_join_books. exists loan, book. repeat split; auto.
        rewrite Hr. simpl. unfold sql_ge_date_now. now apply Z.leb_le. }
    split; [exact Pi|]. split.
    + split.
      * intros H. apply O in H. simpl in H. tauto.
      * intros H. apply in_join_books. exists loan, book. repeat split; auto.
        rewrite Hr. simpl. unfold sql_lt_date_now. now apply Z.ltb_lt.
    + intros H. apply Pi. now apply utc_day_mono.
Qed.

Lemma pending_overdue_partition_witness :
  let now := 14 * ms_per_day + 36000000 in
  let loan := Borrow.mk 1 1 "x@y.com" 7200000 (14 * ms_per_day + 7200000) false in
  let row := mkRow loan "A" "B" in
  (In row (getPendingReturns now lent_at_two) <->
   utc_day now <= utc_day (Borrow.return_date loan))
  /\ (In row (getOverdueBooks now lent_at_two) <->
      utc_day (Borrow.return_date loan) < utc_day now)
  /\ (now <= Borrow.return_date loan -> In row (getPendingReturns now lent_at_two)).
Proof.
  apply (proj2 (proj2 (pending_overdue_partition (14 * ms_per_day + 36000000) lent_at_two))
           (Borrow.mk 1 1 "x@y.com" 7200000 (14 * ms_per_day + 7200000) false)
           (Book.mk 1 "A" "B" "978-0-13-468599-1" false)).
  - left. reflexivity.
  - left. reflexivity.
  - reflexivity.
  - reflexivity.
Defined.

(** X16: the reminder test [0 < daysUntilDue <= 2] holds exactly when the
    loan falls due after the run and at most 48 hours after it.  Such a loan
    always passes the date filter of [getPendingReturns] read at the same
    instant, and of runs spaced 24 hours apart exactly two consecutive ones
    satisfy the test. *)
Theorem reminder_window (today : Z) (row : PendingRow) :
  let due := Borrow.return_date (borrow row) in
  (due_soon today row = true <-> today < due <= today + 2 * ms_per_day)
  /\ (due_soon today row = true -> sql_ge_date_now today due = true)
  /\ (exists k, forall j,
         due_soon (today + j * ms_per_day) row = true <-> (j = k \/ j = k + 1)).
Proof.
  intros due. split; [apply due_soon_iff|]. split.
  - intros H. apply due_soon_iff in H. unfold sql_ge_date_now. apply Z.leb_le.
    apply utc_day_mono. fold due in H. lia.
  - exists ((due - today - 1) / ms_per_day - 1). intros j.
    rewrite due_soon_iff. fold due.
    pose proof (Z.mul_div_le (due - today - 1) ms_per_day ms_per_day_pos) as L.
    pose proof (Z.mul_succ_div_gt (due - today - 1) ms_per_day ms_per_day_pos) as U.
    set (q := (due - today - 1) / ms_per_day) in *.
    change ms_per_day with 86400000 in *. lia.
Qed.

Lemma reminder_window_witness :
  sql_ge_date_now (13 * ms_per_day) (14 * ms_per_day) = true.
Proof.
  apply (proj1 (proj2 (reminder_window (13 * ms_per_day)
                         (mkRow (Borrow.mk 1 1 "x@y.com" 0 (14 * ms_per_day) false)
                                "A" "B")))).
  reflexivity.
Defined.

(** * The states the routes reach *)

(** ** Calls beyond the documented types *)

Lemma addBorrow_raw_unbound_state (z : zone) (now1 now2 i : Z) (s : db) :
  snd (addBorrow_raw z now1 now2 (Row i) None s) = s
  \/ (exists book, find (has_id i) (books s) = Some book
                   /\ Book.available book = true)
     /\ snd (addBorrow_raw z now1 now2 (Row i) None s)
        = set_books s (update_where (has_id i) (with_available false) (books s)).
Proof.
  destruct (find (has_id i) (books s)) as [book|] eqn:F.
  - destruct (Book.available book) eqn:A.
    + right. split; [now exists book|].
      now rewrite (addBorrow_raw_unbound _ _ _ _ _ _ F A).
    + left. now rewrite (addBorrow_raw_unavailable _ _ _ _ _ _ _ F A).
  - left. unfold addBorrow_raw, getBookById_raw, bind, getBookById, query.
    now rewrite F.
Qed.

Lemma call_run_typed (calls : list call) (s : db) :
  forallb is_typed calls = true -> call_run calls s = run (typed_ops calls) s.
Proof.
  revert s. induction calls as [|c calls IH]; intros s H; simpl; [reflexivity|].
  simpl in H. apply andb_true_iff in H. destruct H as [Hc H].
  destruct c as [o|i]; [|discriminate]. simpl. now apply IH.
Qed.

Lemma call_step_refs_exist (c : call) (s : db) :
  foreign_keys s = true -> refs_exist s ->
  foreign_keys (call_step c s) = true /\ refs_exist (call_step c s).
Proof.
  intros FK I. destruct c as [o|i]; simpl.
  - split; [now rewrite step_foreign_keys | now apply step_refs_exist].
  - destruct (addBorrow_raw_unbound_state (fixed_zone 0) 0 0 i s) as [E | [_ E]];
      rewrite E; [now split|].
    split; [exact FK|]. intros l Hl. simpl in *.
    destruct (I l Hl) as [b [Hb Hid]].
    destruct (in_update_where_key Book.id (has_id i) (with_available false) _ b
                (fun _ => eq_refl) Hb) as [b' [Hb' Hid']].
    exists b'. split; [exact Hb' | congruence].
Qed.

Lemma call_run_refs_exist (calls : list call) :
  foreign_keys (call_run calls (initDB true)) = true
  /\ refs_exist (call_run calls (initDB true)).
Proof.
  assert (H : forall s0, foreign_keys s0 = true -> refs_exist s0 ->
                         foreign_keys (call_run calls s0) = true
                         /\ refs_exist (call_run calls s0)).
  { induction calls as [|c calls IH]; intros s0 F I; simpl; [now split|].
    destruct (call_step_refs_exist c s0 F I) as [F' I']. now apply IH. }
  apply H; [reflexivity|]. intros l [].
Qed.

Lemma delete_book_refused (i : Z) (s : db) :
  deleteBook i s = (Throw (SqliteError "FOREIGN KEY constraint failed"), s) ->
  delete_book i s
  = (mkBookResponse 500 (book_error_json "FOREIGN KEY constraint failed"), s).
Proof.
  intros E. unfold delete_book, try_catch_book.
  now rewrite (bind_throw _ _ _ _ _ E).
Qed.

(** ** A lent book is never deleted *)

(** C9, as stated, fails: on the database of the program [deleteBook] does
    not remove a book that has an active loan.  It throws, the route answers
    500, the book stays, and after the call the loan is still listed by
    [getPendingReturns]. *)
Lemma lent_book_is_not_deleted :
  let s := lent true in
  let loan := Borrow.mk 1 1 "x@y.com" 0 (setDate_plus 0 14) false in
  In loan (borrows s) /\ Borrow.returned loan = false
  /\ deleteBook 1 s = (Throw (SqliteError "FOREIGN KEY constraint failed"), s)
  /\ delete_book 1 s
     = (mkBookResponse 500 (book_error_json "FOREIGN KEY constraint failed"), s)
  /\ In (mkRow loan "A" "B") (getPendingReturns 0 (snd (deleteBook 1 s))).
Proof.
  repeat split; left; reflexivity.
Qed.

(** C9, as amended: both notification queries only return loans whose book
    is in the catalog, and on the database of the program no loan ever loses
    its book.  In every state the routes reach, the book of every loan
    exists; [deleteBook] on a book that a loan refers to throws, the route
    answers 500 and nothing is removed, so that a delete that succeeds
    removes a book without loans; and every active loan is listed, with the
    title and author of its book, by exactly one of [getPendingReturns] and
    [getOverdueBooks]: the inner join never drops an active loan. *)
Theorem lent_book_is_never_deleted (calls : list call) :
  let s := call_run calls (initDB true) in
  (forall s0 now row,
     In row (getPendingReturns now s0) \/ In row (getOverdueBooks now s0) ->
     exists book, In book (books s0) /\ Book.id book = Borrow.book_id (borrow row))
  /\ (forall loan, In loan (borrows s) ->
        (exists book, In book (books s) /\ Book.id book = Borrow.book_id loan)
        /\ deleteBook (Borrow.book_id loan) s
           = (Throw (SqliteError "FOREIGN KEY constraint failed"), s)
        /\ delete_book (Borrow.book_id loan) s
           = (mkBookResponse 500 (book_error_json "FOREIGN KEY constraint failed"), s))
  /\ (forall i s', deleteBook i s = (Ok true, s') ->
        (forall loan, In loan (borrows s) -> Borrow.book_id loan <> i)
        /\ borrows s' = borrows s)
  /\ (forall now loan, In loan (borrows s) -> Borrow.returned loan = false ->
        exists book,
          In book (books s) /\ Book.id book = Borrow.book_id loan
          /\ let row := mkRow loan (Book.title book) (Book.author book) in
             (In row (getPendingReturns now s) \/ In row (getOverdueBooks now s))
             /\ ~ (In row (getPendingReturns now s) /\ In row (getOverdueBooks now s))).
Proof.
  intros s. destruct (call_run_refs_exist calls) as [FK I]. fold s in FK, I.
  assert (D : forall loan, In loan (borrows s) ->
                deleteBook (Borrow.book_id loan) s
                = (Throw (SqliteError "FOREIGN KEY constraint failed"), s)).
  { intros loan Hl. destruct (I loan Hl) as [b [Hb Hid]].
    destruct (deleteBook_spec (Borrow.book_id loan) s) as [[_ E] | [V _]];
      [exact E|].
    exfalso. unfold fk_violation in V. rewrite FK in V.
    assert (C : (0 <? count_books (Borrow.book_id loan) s) = true)
      by (apply count_books_pos; now exists b).
    assert (R : existsb (fun l => Borrow.book_id l =? Borrow.book_id loan) (borrows s)
                = true) by (apply referenced_iff; now exists loan).
    rewrite C, R in V. discriminate. }
  split; [|split; [|split]].
  - intros s0 now row [Hrow | Hrow];
      destruct (join_books_book_exists _ _ _ Hrow) as [_ [book [Hb [Hbid _]]]];
      now exists book.
  - intros loan Hl. split; [exact (I loan Hl)|]. split; [exact (D loan Hl)|].
    apply delete_book_refused. exact (D loan Hl).
  - intros i s' E. split.
    + intros loan Hl Hid. rewrite <- Hid, (D loan Hl) in E. discriminate.
    + destruct (deleteBook_spec i s) as [[_ E2] | [_ E2]]; rewrite E2 in E;
        [discriminate|]. injection E as _ <-. reflexivity.
  - intros now loan Hl Hr. destruct (I loan Hl) as [b [Hb Hid]].
    exists b. split; [exact Hb|]. split; [exact Hid|]. cbv zeta.
    unfold getPendingReturns, getOverdueBooks. rewrite !in_join_books. split.
    + destruct (sql_ge_date_now now (Borrow.return_date loan)) eqn:Dt.
      * left. exists loan, b. repeat split; auto. now rewrite Hr, Dt.
      * right. exists loan, b. repeat split; auto.
        rewrite Hr. simpl. unfold sql_ge_date_now in Dt. unfold sql_lt_date_now.
        apply Z.leb_gt in Dt. now apply Z.ltb_lt.
    + intros [[l1 [b1 [_ [C1 [_ [_ E1]]]]]] [l2 [b2 [_ [C2 [_ [_ E2]]]]]]].
      injection E1 as <- _ _. injection E2 as <- _ _.
      apply andb_true_iff in C1, C2. destruct C1 as [_ C1]. destruct C2 as [_ C2].
      unfold sql_ge_date_now in C1. unfold sql_lt_date_now in C2.
      apply Z.leb_le in C1. apply Z.ltb_lt in C2. lia.
Qed.

Lemma lent_book_is_never_deleted_witness :
  let s := call_run [Typed (AddBook "A" "B" "978-0-13-468599-1");
                     Typed (AddBorrow 0 0 1 "x@y.com")] (initDB true) in
  let loan := Borrow.mk 1 1 "x@y.com" 0 (setDate_plus 0 14) false in
  (exists book, In book (books s) /\ Book.id book = Borrow.book_id loan)
  /\ deleteBook (Borrow.book_id loan) s
     = (Throw (SqliteError "FOREIGN KEY constraint failed"), s)
  /\ delete_book (Borrow.book_id loan) s
     = (mkBookResponse 500 (book_error_json "FOREIGN KEY constraint failed"), s).
Proof.
  apply (proj1 (proj2 (lent_book_is_never_deleted
                         [Typed (AddBook "A" "B" "978-0-13-468599-1");
                          Typed (AddBorrow 0 0 1 "x@y.com")]))
           (Borrow.mk 1 1 "x@y.com" 0 (setDate_plus 0 14) false)).
  left. reflexivity.
Defined.

(** ** The availability flag, when every email is bound *)

(** X6: as long as the driver binds the email of every borrow (every
    [userEmail] is a string), in every state the routes reach a book whose
    [available] is false has an active loan: no such sequence of calls
    leaves a book unavailable without a loan whose return frees it. *)
Theorem unavailable_book_is_lent_if_bound (calls : list call) (book : Book.t) :
  forallb is_typed calls = true ->
  let s := call_run calls (initDB true) in
  In book (books s) -> Book.available book = false ->
  exists loan, In loan (borrows s)
               /\ Borrow.returned loan = false
               /\ Borrow.book_id loan = Book.id book.
Proof.
  intros T s Hin Ha. subst s. rewrite (call_run_typed _ _ T) in *.
  apply (reachable_unavailable_backed (run (typed_ops calls) (initDB true)));
    [now exists true, (typed_ops calls) | exact Hin | exact Ha].
Qed.

Lemma unavailable_book_is_lent_if_bound_witness :
  let s := call_run [Typed (AddBook "A" "B" "978-0-13-468599-1");
                     Typed (AddBorrow 0 0 1 "x@y.com")] (initDB true) in
  exists loan, In loan (borrows s)
               /\ Borrow.returned loan = false
               /\ Borrow.book_id loan = 1.
Proof.
  apply (unavailable_book_is_lent_if_bound
           [Typed (AddBook "A" "B" "978-0-13-468599-1");
            Typed (AddBorrow 0 0 1 "x@y.com")]
           (Book.mk 1 "A" "B" "978-0-13-468599-1" false)).
  - reflexivity.
  - left. reflexivity.
  - reflexivity.
Defined.

(** X7: as long as the driver binds the email of every borrow and no loan
    is returned a second time, every sequence of calls keeps the
    availability invariant (a book is unavailable exactly when an active
    loan refers to it) and at most one active loan per book. *)
Theorem invariant_if_bound_and_single_return (calls : list call) :
  forallb is_typed calls = true ->
  no_double_return (typed_ops calls) (initDB true) ->
  availability_invariant (call_run calls (initDB true))
  /\ one_active_loan (call_run calls (initDB true)).
Proof.
  intros T H. rewrite (call_run_typed _ _ T).
  split; [now apply availability_without_double_return|].
  assert (L : forall ops s, ledger_ok s -> no_double_return ops s ->
                            ledger_ok (run ops s)).
  { induction ops as [|o ops IH]; intros s0 L0 N; simpl; [exact L0|].
    destruct N as [N1 N2]. apply IH; [now apply step_ledger_ok | exact N2]. }
  exact (ledger_one _ (L _ _ (initDB_ledger_ok true) H)).
Qed.

Lemma invariant_if_bound_and_single_return_witness :
  let calls := [Typed (AddBook "A" "B" "978-0-13-468599-1");
                Typed (AddBorrow 0 0 1 "x@y.com"); Typed (MarkAsReturned 1);
                Typed (AddBorrow 5 5 1 "z@y.com")] in
  availability_invariant (call_run calls (initDB true))
  /\ one_active_loan (call_run calls (initDB true)).
Proof.
  apply (invariant_if_bound_and_single_return
           [Typed (AddBook "A" "B" "978-0-13-468599-1");
            Typed (AddBorrow 0 0 1 "x@y.com"); Typed (MarkAsReturned 1);
            Typed (AddBorrow 5 5 1 "z@y.com")]).
  - reflexivity.
  - simpl. repeat split. intros l [<- | []] _. reflexivity.
Defined.

(** ** The borrow that writes and fails *)




(** ** The answers of the routes on the values of a request *)







Lemma other_has_isbn_iff (i : Z) (v : string) (s : db) :
  existsb (fun b => negb (has_id i b) && (Book.isbn b =? v)%string) (books s) = true
  <-> exists other, In other (books s) /\ Book.id other <> i /\ Book.isbn other = v.
Proof.
  rewrite existsb_exists. split.
  - intros [b [Hb E]]. apply andb_true_iff in E. destruct E as [E1 E2].
    apply negb_true_iff in E1. unfold has_id in E1. apply Z.eqb_neq in E1.
    apply String.eqb_eq in E2. now exists b.
  - intros [b [Hb [E1 E2]]]. exists b. split; [exact Hb|].
    apply andb_true_iff. split.
    + apply negb_true_iff. unfold has_id. now apply Z.eqb_neq.
    + now apply String.eqb_eq.
Qed.

Lemma update_bound_found (i : Z) (bound : list (column * string)) (s : db)
    (book : Book.t) :
  find (has_id i) (books s) = Some book -> bound <> [] ->
  isbn_clash i bound s = false ->
  (n <- run_update_book i bound ;; if 0 <? n then getBookById i else ret None) s
  = (Ok (Some (fold_left assign bound book)),
     set_books s (update_where (has_id i) (fun b => fold_left assign bound b)
                               (books s))).
Proof.
  intros H Hne Hclash. unfold getBookById, bind, query.
  rewrite run_update_book_ok by (try assumption; now rewrite Hclash, andb_false_r).
  assert (Hc : (0 <? count_books i s) = true).
  { apply count_books_pos. exists book. now apply find_book_some. }
  rewrite Hc. simpl books.
  rewrite find_update_where by (intros x; apply fold_assign_id).
  now rewrite H.
Qed.

Lemma update_bound_clash (i : Z) (bound : list (column * string)) (s : db)
    (book : Book.t) :
  find (has_id i) (books s) = Some book ->
  isbn_clash i bound s = true ->
  (n <- run_update_book i bound ;; if 0 <? n then getBookById i else ret None) s
  = (Throw (SqliteError "UNIQUE constraint failed: books.isbn"), s).
Proof.
  intros H Hclash. unfold bind, run_update_book.
  destruct bound as [|u us]; [simpl in Hclash; discriminate|].
  assert (Hc : (0 <? count_books i s) = true).
  { apply count_books_pos. exists book. now apply find_book_some. }
  now rewrite Hc, Hclash.
Qed.

(** What [updateBook] does with the values of a request, for a book that
    exists and at least one truthy field. *)
Lemma updateBook_raw_cases (i : Z) (title author isbn : js_field) (s : db)
    (book : Book.t) :
  find (has_id i) (books s) = Some book ->
  is_truthy title || is_truthy author || is_truthy isbn = true ->
  let unbound := (is_truthy title = true /\ as_text title = None)
                 \/ (is_truthy author = true /\ as_text author = None)
                 \/ (is_truthy isbn = true /\ as_text isbn = None) in
  let taken := is_truthy isbn = true
               /\ exists other, In other (books s) /\ Book.id other <> i
                                /\ Some (Book.isbn other) = as_text isbn in
  (unbound /\ updateBook_raw (Some i) title author isbn s = (Throw bind_error, s))
  \/ (~ unbound /\ taken
      /\ updateBook_raw (Some i) title author isbn s
         = (Throw (SqliteError "UNIQUE constraint failed: books.isbn"), s))
  \/ (~ unbound /\ ~ taken
      /\ exists bound,
           bind_all (collect_raw title author isbn) = Some bound
           /\ updateBook_raw (Some i) title author isbn s
              = (Ok (Some (fold_left assign bound book)),
                 set_books s (update_where (has_id i)
                                (fun b => fold_left assign bound b) (books s)))).
Proof.
  intros F G unbound taken. subst unbound taken.
  unfold updateBook_raw. rewrite (bind_ok _ _ _ _ _ (getBookById_eq _ s)), F.
  destruct title as [tt ts tx], author as [at_ as_ ax], isbn as [it is_ ix].
  cbn [is_truthy as_text as_string] in *. unfold collect_raw.
  cbn [is_truthy as_text as_string].
  assert (B : forall (bound : list (column * string)) v,
             bound <> [] ->
             (isbn_clash i bound s
              = existsb (fun b => negb (has_id i b) && (Book.isbn b =? v)%string)
                        (books s)) ->
             ((exists other, In other (books s) /\ Book.id other <> i
                             /\ Some (Book.isbn other) = Some v)
              /\ (n <- run_update_book i bound ;;
                  if 0 <? n then getBookById i else ret None) s
                 = (Throw (SqliteError "UNIQUE constraint failed: books.isbn"), s))
             \/ (~ (exists other, In other (books s) /\ Book.id other <> i
                                  /\ Some (Book.isbn other) = Some v)
                 /\ (n <- run_update_book i bound ;;
                     if 0 <? n then getBookById i else ret None) s
                    = (Ok (Some (fold_left assign bound book)),
                       set_books s (update_where (has_id i)
                                      (fun b => fold_left assign bound b) (books s))))).
  { intros bound v Hne E.
    destruct (isbn_clash i bound s) eqn:C.
    - left. split; [|now apply (update_bound_clash _ _ _ book)].
      symmetry in E. apply other_has_isbn_iff in E.
      destruct E as [o [H1 [H2 H3]]]. exists o. now rewrite H3.
    - right. split; [|now apply update_bound_found].
      intros [o [H1 [H2 H3]]]. injection H3 as H3.
      assert (X : existsb (fun b => negb (has_id i b) && (Book.isbn b =? v)%string)
                          (books s) = true)
        by (apply other_has_isbn_iff; now exists o).
      congruence. }
  assert (N : forall (bound : list (column * string)),
             bound <> [] -> isbn_clash i bound s = false ->
             (n <- run_update_book i bound ;;
              if 0 <? n then getBookById i else ret None) s
             = (Ok (Some (fold_left assign bound book)),
                set_books s (update_where (has_id i)
                               (fun b => fold_left assign bound b) (books s))))
    by (intros; now apply update_bound_found).
  destruct tt, at_, it; cbn [app] in *; try discriminate;
    repeat match goal with
           | x : option string |- _ => destruct x
           end;
    cbn [bind_all app];
    try (left; split; [tauto | reflexivity]);
    match goal with
       | |- context [run_update_book _ ?bound] =>
           first
             [ pose proof (N bound ltac:(discriminate) eq_refl) as E;
               clear B N; right; right;
               split; [intros [[X Y] | [[X Y] | [X Y]]]; congruence|];
               split; [intros [X _]; congruence|];
               exists bound; split; [reflexivity | exact E]
             | match bound with
               | context [(Isbn, ?v)] =>
                   destruct (B bound v ltac:(discriminate)
                               ltac:(cbn; rewrite ?orb_false_r; reflexivity))
                     as [[T E] | [T E]]; clear B N;
                   [ right; left;
                     split; [intros [[X Y] | [[X Y] | [X Y]]]; congruence|];
                     split; [split; [reflexivity | exact T] | exact E]
                   | right; right;
                     split; [intros [[X Y] | [[X Y] | [X Y]]]; congruence|];
                     split; [intros [_ X]; exact (T X)|];
                     exists bound; split; [reflexivity | exact E] ]
               end ]
       end.
Qed.

Lemma updateBook_raw_missing (i : Z) (title author isbn : js_field) (s : db) :
  find (has_id i) (books s) = None ->
  updateBook_raw (Some i) title author isbn s = (Ok None, s).
Proof.
  intros F. unfold updateBook_raw.
  rewrite (bind_ok _ _ _ _ _ (getBookById_eq _ s)), F. reflexivity.
Qed.

(** X13: [PUT /books/:id] answers 200, 400, 404 or 500: 400 exactly when
    no field is truthy; otherwise 404 exactly when no book has the id;
    otherwise 500 exactly when the driver refuses the value of a truthy
    field ([title: true], say) or the ISBN bound belongs to another book,
    and 200 in the remaining case.  Every answer but 200 leaves the
    database as it was; after a 200 the row of the book has the bound
    texts assigned and nothing else has changed. *)
Theorem put_book_raw_answers (bookId : option Z) (title author isbn : js_field)
    (s : db) :
  let answer := put_book_raw bookId title author isbn s in
  let code := status (fst answer) in
  let given := is_truthy title || is_truthy author || is_truthy isbn in
  let found := match bookId with
               | Some i => find (has_id i) (books s)
               | None => None
               end in
  let unbound := (is_truthy title = true /\ as_text title = None)
                 \/ (is_truthy author = true /\ as_text author = None)
                 \/ (is_truthy isbn = true /\ as_text isbn = None) in
  let taken := is_truthy isbn = true
               /\ exists other, In other (books s)
                                /\ Some (Book.id other) <> bookId
                                /\ Some (Book.isbn other) = as_text isbn in
  (code = 200 \/ code = 400 \/ code = 404 \/ code = 500)
  /\ (code = 400 <-> given = false)
  /\ (code = 404 <-> given = true /\ found = None)
  /\ (code = 500 <-> given = true /\ found <> None /\ (unbound \/ taken))
  /\ (code = 200 <-> given = true /\ found <> None /\ ~ unbound /\ ~ taken)
  /\ (code <> 200 -> snd answer = s)
  /\ (code = 200 ->
      exists i bound,
        bookId = Some i
        /\ bind_all (collect_raw title author isbn) = Some bound
        /\ snd answer
           = set_books s (update_where (has_id i)
                            (fun b => fold_left assign bound b) (books s))).
Proof.
  intros answer code given found unbound taken.
  subst answer code given found.
  unfold put_book_raw, try_catch.
  destruct (is_truthy title || is_truthy author || is_truthy isbn) eqn:G.
  - assert (G' : negb (is_truthy title) && negb (is_truthy author)
                 && negb (is_truthy isbn) = false).
    { destruct (is_truthy title), (is_truthy author), (is_truthy isbn);
        simpl in *; congruence. }
    rewrite G'. destruct bookId as [i|].
    + destruct (find (has_id i) (books s)) as [book|] eqn:F.
      * assert (T : taken <->
                    is_truthy isbn = true
                    /\ exists other, In other (books s) /\ Book.id other <> i
                                     /\ Some (Book.isbn other) = as_text isbn).
        { subst taken. split; intros [H1 [o [H2 [H3 H4]]]]; (split; [exact H1|]);
            exists o; repeat split; auto; congruence. }
        destruct (updateBook_raw_cases i title author isbn s book F G)
          as [[U E] | [[U [K E]] | [U [K [bound [Bd E]]]]]].
        -- rewrite (bind_throw _ _ _ _ _ E). cbn.
           assert (unbound) by exact U. clearbody unbound taken. clear U T.
           intuition (try discriminate; try congruence).
        -- rewrite (bind_throw _ _ _ _ _ E). cbn.
           assert (~ unbound) by exact U. assert (taken) by (now apply T).
           clearbody unbound taken. clear U T K.
           intuition (try discriminate; try congruence).
        -- rewrite (bind_ok _ _ _ _ _ E). cbn.
           assert (~ unbound) by exact U.
           assert (~ taken) by (intros X; apply K; now apply T).
           assert (exists i0 bound0,
                      Some i = Some i0
                      /\ bind_all (collect_raw title author isbn) = Some bound0
                      /\ set_books s (update_where (has_id i)
                                        (fun b => fold_left assign bound b) (books s))
                         = set_books s (update_where (has_id i0)
                                          (fun b => fold_left assign bound0 b)
                                          (books s)))
             by (exists i, bound; auto).
           clearbody unbound taken. clear U T K.
           intuition (try discriminate; try congruence).
      * rewrite (bind_ok _ _ _ _ _ (updateBook_raw_missing i title author isbn s F)).
        cbn. clearbody unbound taken.
        intuition (try discriminate; try congruence).
    + cbn. clearbody unbound taken. intuition (try discriminate; try congruence).
  - assert (G' : negb (is_truthy title) && negb (is_truthy author)
                 && negb (is_truthy isbn) = true).
    { destruct (is_truthy title), (is_truthy author), (is_truthy isbn);
        simpl in *; congruence. }
    rewrite G'. cbn. clearbody unbound taken.
    intuition (try discriminate; try congruence).
Qed.

Lemma put_book_raw_answers_witness :
  let s := run [AddBook "A" "B" "978-0-13-468599-1";
                AddBook "C" "D" "978-0-13-468599-2"] (initDB true) in
  status (fst (put_book_raw (Some 2) (mkField true "true" None)
                            (text_field "") (text_field "") s)) = 500.
Proof.
  apply (proj2 (proj1 (proj2 (proj2 (proj2
           (put_book_raw_answers (Some 2) (mkField true "true" None)
              (text_field "") (text_field "")
              (run [AddBook "A" "B" "978-0-13-468599-1";
                    AddBook "C" "D" "978-0-13-468599-2"] (initDB true)))))))).
  split; [reflexivity|]. split; [discriminate|]. left. left. split; reflexivity.
Defined.
